(** * OrderBook: a shallow embedding of the order-book maintenance pipeline

    The TypeScript class [OrderBook] keeps two price-sorted arrays of levels
    ([bids], [asks]) and rebuilds each of them on every feed batch through
    the pipeline

      mapOrders -> upsert -> filterEmptyOrders -> sumOrders -> trimBook
                -> commitOrders

    A JavaScript [number] is an IEEE 754 binary64 value; it is embedded as
    Rocq's primitive [float], which is the same format with the same
    operations ([NaN] included, a single one).  Arrays are lists, array
    indices are [nat], [levelsDeep] is a [Z] (it is handed to
    [Array.prototype.slice], which accepts any integer). *)

From Stdlib Require Import List ZArith Lia Bool Arith PeanoNat.
From Stdlib Require Import Floats Sorted.
Import ListNotations.

Local Open Scope float_scope.

(** ** Data model *)

(** [export type OrderFeed = [number, number]] *)
Definition OrderFeed : Type := float * float.

(** [export enum OrderSide { BID = 'bid', ASK = 'ask' }] *)
Inductive OrderSide : Type := BID | ASK.

(** [export interface Order { price; size; total }] *)
Record Order : Type := mkOrder { price : float; size : float; total : float }.

(** The mutable fields of the class. *)
Record OrderBook : Type := mkBook {
  levelsDeep : Z;
  bids : list Order;
  asks : list Order
}.

(** ** JavaScript primitives used by the class *)

(** [x !== x], the test lodash uses for NaN. *)
Definition isNaN (x : float) : bool := negb (x =? x).

(** ToBoolean on a number: [+0], [-0] and [NaN] are falsy. *)
Definition truthy (x : float) : bool := negb ((x =? 0) || isNaN x).

(** [v || 0] where [v] is a number or [undefined] ([None]). *)
Definition or_zero (v : option float) : float :=
  match v with
  | Some x => if truthy x then x else 0
  | None => 0
  end.

(** ToNumber of a number or [undefined]: [undefined] becomes [NaN]. *)
Definition to_number (v : option float) : float :=
  match v with
  | Some x => x
  | None => nan
  end.

(** Relative index of [Array.prototype.slice]: negative counts from the end,
    everything is clamped to [0 .. len]. *)
Definition rel_index (len i : Z) : Z :=
  if (i <? 0)%Z then Z.max (len + i) 0 else Z.min i len.

(** [arr.slice(start, end)]; [end_ = None] is the one-argument call. *)
Definition slice {A : Type} (start : Z) (end_ : option Z) (arr : list A) : list A :=
  let len := Z.of_nat (length arr) in
  let k := rel_index len start in
  let final := match end_ with Some e => rel_index len e | None => len end in
  firstn (Z.to_nat (final - k)) (skipn (Z.to_nat k) arr).

(** [arr.splice(i, 0, x)]: insertion before index [i]. *)
Definition splice_insert {A : Type} (i : nat) (x : A) (arr : list A) : list A :=
  firstn i arr ++ x :: skipn i arr.

(** [arr[i] = f(arr[i])] for a field update of the object stored at [i]. *)
Fixpoint update_at {A : Type} (i : nat) (f : A -> A) (arr : list A) : list A :=
  match arr, i with
  | [], _ => []
  | x :: r, O => f x :: r
  | x :: r, S j => x :: update_at j f r
  end.

(** lodash [findIndex(array, predicate)]: first index whose element satisfies
    the predicate, [None] standing for [-1]. *)
Fixpoint findIndex {A : Type} (p : A -> bool) (arr : list A) : option nat :=
  match arr with
  | [] => None
  | x :: r => if p x then Some O else option_map S (findIndex p r)
  end.

(** The loop of lodash's [baseSortedIndexBy] (with [retHighest] false):
    [while (low < high) { mid = floor((low + high) / 2); ... }].
    [setLow mid] is the loop's test on [array[mid]].  [fuel] bounds the
    number of iterations; [high - low] iterations are always enough
    (see [bsearch_fuel]). *)
Fixpoint bsearch (fuel : nat) (setLow : nat -> bool) (low high : nat) : nat :=
  match fuel with
  | O => high
  | S fuel' =>
      if (low <? high)%nat then
        let mid := ((low + high) / 2)%nat in
        if setLow mid then bsearch fuel' setLow (S mid) high
        else bsearch fuel' setLow low mid
      else high
  end.

(** lodash [sortedIndexBy(array, value, iteratee)] for a numeric iteratee:
    the comparison is [computed < value], except that a NaN [value] goes
    after every element whose key is not NaN.  (The final clamp to
    [MAX_ARRAY_INDEX = 2^32 - 2] is the identity on every array the class
    can hold and is left out.) *)
Definition sortedIndexBy {A : Type} (arr : list A) (value : A) (iteratee : A -> float)
  : nat :=
  match arr with
  | [] => O
  | d :: _ =>
      let v := iteratee value in
      let setLow mid :=
        let computed := iteratee (nth mid arr d) in
        if isNaN v then negb (isNaN computed) else computed <? v in
      bsearch (length arr) setLow 0 (length arr)
  end.

(** ** The pipeline of [OrderBook] *)

Definition side_orders (side : OrderSide) (b : OrderBook) : list Order :=
  match side with BID => bids b | ASK => asks b end.

(** [mapOrder]: a feed tuple becomes a level with [total = 0]. *)
Definition mapOrder (feed : OrderFeed) : Order :=
  {| price := fst feed; size := snd feed; total := 0 |}.

Definition mapOrders (feed : list OrderFeed) : list Order := map mapOrder feed.

Definition set_size (s : float) (o : Order) : Order :=
  {| price := price o; size := s; total := total o |}.

Definition set_total (t : float) (o : Order) : Order :=
  {| price := price o; size := size o; total := t |}.

(** The reducer of [upsert]: overwrite the size of the level with the same
    price, or insert the new level at its sorted position. *)
Definition upsert_step (acc : list Order) (order : Order) : list Order :=
  match findIndex (fun o => price o =? price order) acc with
  | Some updateIndex => update_at updateIndex (set_size (size order)) acc
  | None =>
      let insertIndex := sortedIndexBy acc order (fun o => - price o) in
      splice_insert insertIndex order acc
  end.

(** [upsert(side)(newOrders)]: [newOrders.reduce(step, this.bids / this.asks)]. *)
Definition upsert (side : OrderSide) (b : OrderBook) (newOrders : list Order)
  : list Order :=
  fold_left upsert_step newOrders (side_orders side b).

(** [filterEmptyOrders]: [orders.filter(o => o.size > 0)]. *)
Definition filterEmptyOrders (orders : list Order) : list Order :=
  filter (fun o => 0 <? size o) orders.

(** [acc[i].total], read from the array being rewritten. *)
Definition total_at (acc : list Order) (i : nat) : float :=
  total (nth i acc (mkOrder nan nan nan)).

(** The callbacks of [sumOrders]; [order] is the element at index [i]. *)
Definition sum_bid_step (acc : list Order) (io : nat * Order) : list Order :=
  let (i, order) := io in
  update_at i
    (set_total (if (i =? 0)%nat then size order
                else total_at acc (i - 1) + size order)) acc.

Definition sum_ask_step (io : nat * Order) (acc : list Order) : list Order :=
  let (i, order) := io in
  update_at i
    (set_total (if (i =? length acc - 1)%nat then size order
                else total_at acc (i + 1) + size order)) acc.

(** The elements of an array paired with their indices. *)
Definition indexed {A : Type} (arr : list A) : list (nat * A) :=
  combine (seq 0 (length arr)) arr.

(** [sumOrders(side)(orders)]: [reduce] from the front for bids,
    [reduceRight] from the back for asks, both writing [total] in place. *)
Definition sumOrders (side : OrderSide) (orders : list Order) : list Order :=
  match side with
  | BID => fold_left sum_bid_step (indexed orders) orders
  | ASK => fold_right sum_ask_step orders (indexed orders)
  end.

(** [trimBook(side)(orders)]. *)
Definition trimBook (side : OrderSide) (b : OrderBook) (orders : list Order)
  : list Order :=
  match side with
  | BID => slice 0 (Some (levelsDeep b)) orders
  | ASK => slice (- levelsDeep b) None orders
  end.

(** [commitOrders(side)(orders)]. *)
Definition commitOrders (side : OrderSide) (b : OrderBook) (orders : list Order)
  : OrderBook :=
  match side with
  | BID => {| levelsDeep := levelsDeep b; bids := orders; asks := asks b |}
  | ASK => {| levelsDeep := levelsDeep b; bids := bids b; asks := orders |}
  end.

(** [processOrders(feed, side)]: the [flow] of the six stages. *)
Definition processOrders (feed : list OrderFeed) (side : OrderSide) (b : OrderBook)
  : OrderBook :=
  commitOrders side b
    (trimBook side b
       (sumOrders side
          (filterEmptyOrders
             (upsert side b (mapOrders feed))))).

(** [processFeed(bids, asks)]: bids first, then asks. *)
Definition processFeed (bidFeed askFeed : list OrderFeed) (b : OrderBook)
  : OrderBook :=
  processOrders askFeed ASK (processOrders bidFeed BID b).

(** The field initialisers, and the constructor. *)
Definition emptyBook : OrderBook :=
  {| levelsDeep := 25; bids := []; asks := [] |}.

Definition newOrderBook (bidFeed askFeed : list OrderFeed) : OrderBook :=
  processFeed bidFeed askFeed emptyBook.

(** ** Metrics of the guarded class (first [OrderBook] of the source)

    [round] comes from the module [formats], which is not part of the
    sources at hand; it is a parameter of the metrics. *)

(** lodash [last(array)]; [None] is [undefined]. *)
Definition last_opt {A : Type} (arr : list A) : option A :=
  nth_error arr (length arr - 1).

Section Metrics.

Variable round : float -> float.

(** [last(this.asks)?.price || 0] *)
Definition topAsk (b : OrderBook) : float :=
  or_zero (option_map price (last_opt (asks b))).

(** [head(this.bids)?.price || 0] *)
Definition topBid (b : OrderBook) : float :=
  or_zero (option_map price (hd_error (bids b))).

(** [this.bids.length > 0 && this.asks.length > 0] *)
Definition hasSpread (b : OrderBook) : bool :=
  (0 <? length (bids b))%nat && (0 <? length (asks b))%nat.

(** [this.hasSpread() ? round(this.topAsk() - this.topBid()) : 0] *)
Definition spread (b : OrderBook) : float :=
  if hasSpread b then round (topAsk b - topBid b) else 0.

(** [this.topAsk() + this.topBid() / 2] *)
Definition midPoint (b : OrderBook) : float :=
  topAsk b + topBid b / 2.

(** [round((this.spread() / this.midPoint()) * 100) || 0] *)
Definition spreadPercent (b : OrderBook) : float :=
  or_zero (Some (round ((spread b / midPoint b) * 100))).

(** [Math.max] of two numbers that are neither NaN nor [-0], which is
    what [|| 0] leaves. *)
Definition maxTotal (b : OrderBook) : float :=
  let x := or_zero (option_map total (hd_error (asks b))) in
  let y := or_zero (option_map total (last_opt (bids b))) in
  if x <? y then y else x.

End Metrics.

(** ** The unguarded class (second [OrderBook] of the source)

    Its pipeline has the same stages under other names ([applyOrders],
    [upsertSorted], [filterZeroSizes], [sumSizes], [trimOrders]) and commits
    a copy of the trimmed array; its metrics have no guard for an empty
    side. *)
Module Unguarded.

Definition emptyBook : OrderBook :=
  {| levelsDeep := 10; bids := []; asks := [] |}.

Definition applyOrders (feed : list OrderFeed) (side : OrderSide) (b : OrderBook)
  : OrderBook :=
  commitOrders side b
    (trimBook side b
       (sumOrders side
          (filterEmptyOrders
             (upsert side b (mapOrders feed))))).

Definition processFeed (bidFeed askFeed : list OrderFeed) (b : OrderBook)
  : OrderBook :=
  applyOrders askFeed ASK (applyOrders bidFeed BID b).

Definition newOrderBook (bidFeed askFeed : list OrderFeed) : OrderBook :=
  processFeed bidFeed askFeed emptyBook.

(** [this.bids[0]?.price]; [None] is [undefined]. *)
Definition highestBid (b : OrderBook) : option float :=
  option_map price (nth_error (bids b) 0).

(** [this.asks.slice(-1)[0]?.price] *)
Definition lowestAsk (b : OrderBook) : option float :=
  option_map price (nth_error (slice (-1) None (asks b)) 0).

Section Metrics.

Variable round : float -> float.

(** [this.lowestAsk() - this.highestBid()] *)
Definition spread (b : OrderBook) : float :=
  to_number (lowestAsk b) - to_number (highestBid b).

(** [this.lowestAsk() + this.highestBid() / 2] *)
Definition midPoint (b : OrderBook) : float :=
  to_number (lowestAsk b) + to_number (highestBid b) / 2.

Definition spreadPercent (b : OrderBook) : float :=
  round ((spread b / midPoint b) * 100).

End Metrics.

End Unguarded.

(** ** Vocabulary of the specification *)

(** [a] is priced strictly above [b] (JavaScript [a.price > b.price]). *)
Definition above (a b : Order) : Prop := (price b <? price a) = true.

(** Same price, by the identity test of [upsert] ([===]). *)
Definition same_price (a b : Order) : Prop := (price a =? price b) = true.

(** Strictly descending by price: every level is priced above every later
    one. *)
Definition descending (l : list Order) : Prop := StronglySorted above l.

(** No two levels share a price. *)
Definition unique_prices (l : list Order) : Prop :=
  ForallOrdPairs (fun a b => (price a =? price b) = false) l.

Definition no_nan_prices (l : list Order) : Prop :=
  Forall (fun o => isNaN (price o) = false) l.

Definition feed_no_nan (feed : list OrderFeed) : Prop :=
  Forall (fun t => isNaN (fst t) = false) feed.

Definition positive_sizes (l : list Order) : Prop :=
  Forall (fun o => (0 <? size o) = true) l.

(** The recurrences of the cumulative total: bids accumulate from index 0,
    asks from the last index. *)
Definition bid_totals (l : list Order) : Prop :=
  forall i o, nth_error l i = Some o ->
    total o = match i with
              | O => size o
              | S j => total_at l j + size o
              end.

Definition ask_totals (l : list Order) : Prop :=
  forall i o, nth_error l i = Some o ->
    total o = if (S i =? length l)%nat then size o
              else total_at l (S i) + size o.

(** Direct summation of sizes along a list, in list order, starting from the
    first size (there is no initial zero). *)
Definition add_size (acc : option float) (o : Order) : option float :=
  Some (match acc with
        | None => size o
        | Some t => t + size o
        end).

Definition sum_sizes (l : list Order) : option float :=
  fold_left add_size l None.

(** The sum of the sizes from the best price of a side out to and including
    level [i]: bids run from index 0 up to [i], asks from the last index
    down to [i]. *)
Definition depth_to (side : OrderSide) (l : list Order) (i : nat) : option float :=
  match side with
  | BID => sum_sizes (firstn (S i) l)
  | ASK => sum_sizes (rev (skipn i l))
  end.

(** The levels a batch leaves on a side before trimming, already
    aggregated. *)
Definition aggregated (side : OrderSide) (b : OrderBook) (feed : list OrderFeed)
  : list Order :=
  sumOrders side (filterEmptyOrders (upsert side b (mapOrders feed))).

(** "The sizes of the discarded levels contribute to the totals of the kept
    levels": whenever the batch leaves more than [levelsDeep] levels, no kept
    level's total is just the sum of the kept sizes from the best price out to
    it. *)
Definition dropped_levels_contribute
  (side : OrderSide) (b : OrderBook) (feed : list OrderFeed) : Prop :=
  let kept := side_orders side (processOrders feed side b) in
  (levelsDeep b < Z.of_nat (length (aggregated side b feed)))%Z ->
  forall i o, nth_error kept i = Some o ->
    depth_to side kept i <> Some (total o).

(** The recurrence of the side. *)
Definition side_totals (side : OrderSide) (l : list Order) : Prop :=
  match side with
  | BID => bid_totals l
  | ASK => ask_totals l
  end.

Definition finite_prices (l : list Order) : Prop :=
  Forall (fun o => is_finite (price o) = true) l.

(** A batch for one side only, through the public entry point. *)
Definition submit (side : OrderSide) (feed : list OrderFeed) (b : OrderBook)
  : OrderBook :=
  match side with
  | BID => processFeed feed [] b
  | ASK => processFeed [] feed b
  end.

(** The book of Scenario A. *)
Definition scenario_A_book : OrderBook :=
  processFeed [(100, 5); (99, 3)] [(101, 4); (102, 2)] emptyBook.

(** ** Auxiliary forms used in the proofs *)

(** [sumOrders] for bids as a scan that carries the previous total. *)
Fixpoint sum_bid_from (prev : option float) (l : list Order) : list Order :=
  match l with
  | [] => []
  | o :: r =>
      let t := match prev with
               | None => size o
               | Some p => p + size o
               end in
      set_total t o :: sum_bid_from (Some t) r
  end.

(** [sumOrders] for asks: the tail is aggregated first. *)
Fixpoint sum_ask (l : list Order) : list Order :=
  match l with
  | [] => []
  | o :: r =>
      let r' := sum_ask r in
      set_total (match r' with
                 | [] => size o
                 | n :: _ => total n + size o
                 end) o :: r'
  end.

(** The order the merge maintains: [a] sorts before [b] when it is priced
    above [b], or when [b]'s price is NaN and [a]'s is not (the binary
    search of [sortedIndexBy] never moves past a NaN key). *)
Definition sorts_before (a b : Order) : Prop :=
  above a b \/ (isNaN (price b) = true /\ isNaN (price a) = false).

Definition merge_sorted (l : list Order) : Prop :=
  StronglySorted sorts_before l.

(** Same price, or both prices NaN. *)
Definition same_key (a b : Order) : Prop :=
  same_price a b \/ (isNaN (price a) = true /\ isNaN (price b) = true).

(** The pipeline of one side on plain lists. *)
Definition upsert_all (newOrders acc : list Order) : list Order :=
  fold_left upsert_step newOrders acc.

Definition trim (side : OrderSide) (deep : Z) (orders : list Order) : list Order :=
  match side with
  | BID => slice 0 (Some deep) orders
  | ASK => slice (- deep) None orders
  end.

Definition run_side (side : OrderSide) (deep : Z) (feed : list OrderFeed)
  (l : list Order) : list Order :=
  trim side deep (sumOrders side (filterEmptyOrders (upsert_all (mapOrders feed) l))).

(** Merge, prune and trim, without the aggregation. *)
Definition merge_side (side : OrderSide) (deep : Z) (newOrders l : list Order)
  : list Order :=
  trim side deep (filterEmptyOrders (upsert_all newOrders l)).

Definition clear_totals (l : list Order) : list Order := map (set_total 0) l.

(** The level with a given price, as [findIndex] sees it. *)
Definition look (l : list Order) (p : float) : option Order :=
  find (fun o => price o =? p) l.

(** The size a price ends with after a batch, starting from size [d]. *)
Definition final_size (newOrders : list Order) (p d : float) : float :=
  fold_left (fun a b => if price b =? p then size b else a) newOrders d.

(** The level a batch creates for a price that the side does not hold. *)
Fixpoint inserted (newOrders : list Order) (p : float) : option Order :=
  match newOrders with
  | [] => None
  | b :: r =>
      if price b =? p then Some (set_size (final_size r p (size b)) b)
      else inserted r p
  end.

(** The running total after the levels [done]. *)
Definition last_total (done : list Order) : option float :=
  option_map total (last_opt done).

Definition remove_at {A : Type} (i : nat) (l : list A) : list A :=
  firstn i l ++ skipn (S i) l.

(** A falsy number stays falsy under [round]. *)
Definition round_keeps_falsy (round : float -> float) : Prop :=
  forall x, truthy x = false -> truthy (round x) = false.

(** * Properties *)

(** ** Comparison of binary64 numbers *)

Ltac sf_cases :=
  repeat match goal with
         | b : bool |- _ => destruct b
         end; simpl;
  repeat match goal with
         | |- context [Z.compare ?a ?b] =>
             destruct (Z.compare_spec a b); subst; simpl
         | |- context [Pos.compare_cont Eq ?a ?b] =>
             change (Pos.compare_cont Eq a b) with (Pos.compare a b);
             destruct (Pos.compare_spec a b); subst; simpl
         end; intros; try congruence; try lia.

Lemma SFcompare_opp x y : SFcompare (SFopp x) (SFopp y) = SFcompare y x.
Proof. destruct x, y; simpl; sf_cases. Qed.

Lemma SFcompare_swap x y : SFcompare y x = option_map CompOpp (SFcompare x y).
Proof. destruct x, y; simpl; sf_cases. Qed.

Lemma SFcompare_lt_trans x y z :
  SFcompare x y = Some Lt -> SFcompare y z = Some Lt -> SFcompare x z = Some Lt.
Proof. destruct x, y, z; simpl; try discriminate; sf_cases. Qed.

Lemma SFcompare_eq_left x y z :
  SFcompare x y = Some Eq -> SFcompare x z = SFcompare y z.
Proof. destruct x, y, z; simpl; try discriminate; sf_cases. Qed.

Lemma SFcompare_self x : x <> S754_nan -> SFcompare x x = Some Eq.
Proof. destruct x; simpl; try congruence; intros _; sf_cases. Qed.

Lemma SFcompare_undefined x y :
  SFcompare x y = None -> x = S754_nan \/ y = S754_nan.
Proof. destruct x, y; simpl; auto; try discriminate; sf_cases. Qed.

Lemma SFcompare_nan_l y : SFcompare S754_nan y = None.
Proof. reflexivity. Qed.

Lemma SFcompare_nan_r x : SFcompare x S754_nan = None.
Proof. destruct x; reflexivity. Qed.

(** The three outcomes of a float comparison in terms of [SFcompare]. *)
Lemma fltb_cmp a b :
  (a <? b) = true <-> SFcompare (Prim2SF a) (Prim2SF b) = Some Lt.
Proof.
  rewrite ltb_spec. unfold SFltb.
  destruct (SFcompare (Prim2SF a) (Prim2SF b)) as [[ | | ]|];
    split; congruence.
Qed.

Lemma feqb_cmp a b :
  (a =? b) = true <-> SFcompare (Prim2SF a) (Prim2SF b) = Some Eq.
Proof.
  rewrite eqb_spec. unfold SFeqb.
  destruct (SFcompare (Prim2SF a) (Prim2SF b)) as [[ | | ]|];
    split; congruence.
Qed.

Lemma isNaN_cmp a : isNaN a = false <-> Prim2SF a <> S754_nan.
Proof.
  unfold isNaN. rewrite negb_false_iff, feqb_cmp. split.
  - intros H E. rewrite E in H. discriminate.
  - apply SFcompare_self.
Qed.

Lemma fltb_trans a b c : (a <? b) = true -> (b <? c) = true -> (a <? c) = true.
Proof. rewrite !fltb_cmp. apply SFcompare_lt_trans. Qed.

Lemma fltb_irrefl a : (a <? a) = false.
Proof.
  apply not_true_is_false. rewrite fltb_cmp. intros H.
  assert (Hn : Prim2SF a <> S754_nan).
  { intros E. rewrite E in H. discriminate. }
  rewrite (SFcompare_self _ Hn) in H. discriminate.
Qed.

Lemma fltb_asym a b : (a <? b) = true -> (b <? a) = false.
Proof.
  intros H. apply not_true_is_false. intros H'.
  pose proof (fltb_trans _ _ _ H H') as E. rewrite fltb_irrefl in E. discriminate.
Qed.

Lemma fltb_opp a b : (- a <? - b) = (b <? a).
Proof.
  rewrite !ltb_spec, !opp_spec. unfold SFltb. now rewrite SFcompare_opp.
Qed.

Lemma isNaN_opp a : isNaN (- a) = isNaN a.
Proof.
  unfold isNaN. rewrite !eqb_spec, !opp_spec. unfold SFeqb.
  now rewrite SFcompare_opp.
Qed.

Lemma fltb_no_nan a b : (a <? b) = true -> isNaN a = false /\ isNaN b = false.
Proof.
  rewrite fltb_cmp, !isNaN_cmp. intros H. split; intros E; rewrite E in H.
  - discriminate.
  - rewrite SFcompare_nan_r in H. discriminate.
Qed.

Lemma feqb_no_nan a b : (a =? b) = true -> isNaN a = false /\ isNaN b = false.
Proof.
  rewrite feqb_cmp, !isNaN_cmp. intros H. split; intros E; rewrite E in H.
  - discriminate.
  - rewrite SFcompare_nan_r in H. discriminate.
Qed.

Lemma feqb_refl a : isNaN a = false -> (a =? a) = true.
Proof. unfold isNaN. now rewrite negb_false_iff. Qed.

Lemma feqb_sym a b : (a =? b) = (b =? a).
Proof.
  rewrite !eqb_spec. unfold SFeqb.
  rewrite (SFcompare_swap (Prim2SF a) (Prim2SF b)).
  destruct (SFcompare (Prim2SF a) (Prim2SF b)) as [[ | | ]|]; reflexivity.
Qed.

Lemma feqb_ltb_l a b c : (a =? b) = true -> (a <? c) = (b <? c).
Proof.
  rewrite feqb_cmp. intros H. rewrite !ltb_spec. unfold SFltb.
  now rewrite (SFcompare_eq_left _ _ _ H).
Qed.

Lemma feqb_ltb_r a b c : (a =? b) = true -> (c <? a) = (c <? b).
Proof.
  rewrite feqb_cmp. intros H. rewrite !ltb_spec. unfold SFltb.
  rewrite (SFcompare_swap (Prim2SF a) (Prim2SF c)).
  rewrite (SFcompare_swap (Prim2SF b) (Prim2SF c)).
  now rewrite (SFcompare_eq_left _ _ _ H).
Qed.

Lemma feqb_eqb_l a b c : (a =? b) = true -> (a =? c) = (b =? c).
Proof.
  rewrite feqb_cmp. intros H. rewrite !eqb_spec. unfold SFeqb.
  now rewrite (SFcompare_eq_left _ _ _ H).
Qed.

Lemma feqb_eqb_r a b c : (a =? b) = true -> (c =? a) = (c =? b).
Proof.
  intros H. rewrite (feqb_sym c a), (feqb_sym c b). now apply feqb_eqb_l.
Qed.

Lemma feqb_not_ltb a b : (a =? b) = true -> (a <? b) = false.
Proof.
  intros H. rewrite (feqb_ltb_l _ _ _ H). apply fltb_irrefl.
Qed.

Lemma fltb_not_eqb a b : (a <? b) = true -> (a =? b) = false.
Proof.
  intros H. destruct (a =? b) eqn:E; [|reflexivity].
  rewrite (feqb_not_ltb _ _ E) in H. discriminate.
Qed.

(** Two numbers that are not NaN are comparable. *)
Lemma fltb_total a b :
  isNaN a = false -> isNaN b = false ->
  (a <? b) = false -> (a =? b) = false -> (b <? a) = true.
Proof.
  rewrite !isNaN_cmp. intros Ha Hb Hlt Heq.
  rewrite ltb_spec in *. rewrite eqb_spec in Heq. unfold SFltb, SFeqb in *.
  rewrite (SFcompare_swap (Prim2SF a) (Prim2SF b)).
  destruct (SFcompare (Prim2SF a) (Prim2SF b)) as [[ | | ]|] eqn:E;
    try discriminate; try reflexivity.
  destruct (SFcompare_undefined _ _ E); contradiction.
Qed.
(** ** Arrays *)

Lemma update_at_length {A} (f : A -> A) l i : length (update_at i f l) = length l.
Proof.
  revert i. induction l as [|x r IH]; intros [|i]; simpl; auto.
Qed.

Lemma update_at_app {A} (f : A -> A) done x rest :
  update_at (length done) f (done ++ x :: rest) = done ++ f x :: rest.
Proof.
  induction done as [|y d IH]; simpl; [reflexivity|]. now rewrite IH.
Qed.

Lemma set_total_same o : set_total (total o) o = o.
Proof. now destruct o. Qed.

Lemma set_size_same o : set_size (size o) o = o.
Proof. now destruct o. Qed.

Lemma total_at_app_last done o rest :
  total_at ((done ++ [o]) ++ rest) (length done) = total o.
Proof.
  unfold total_at. rewrite <- app_assoc. simpl.
  rewrite app_nth2 by lia. now rewrite Nat.sub_diag.
Qed.

(** ** [sumOrders] as a scan *)

Lemma last_opt_snoc {A} (l : list A) x : last_opt (l ++ [x]) = Some x.
Proof.
  unfold last_opt. rewrite length_app. simpl.
  replace (length l + 1 - 1)%nat with (length l) by lia.
  rewrite nth_error_app2 by lia. now rewrite Nat.sub_diag.
Qed.

Lemma sum_bid_fold rest : forall done,
  fold_left sum_bid_step (combine (seq (length done) (length rest)) rest)
    (done ++ rest)
  = done ++ sum_bid_from (last_total done) rest.
Proof.
  induction rest as [|o r IH]; intros done; simpl; [reflexivity|].
  rewrite update_at_app.
  set (t := if (length done =? 0)%nat then size o
            else total_at (done ++ o :: r) (length done - 1) + size o).
  assert (Ht : t = match last_total done with
                   | None => size o
                   | Some p => p + size o
                   end).
  { subst t. destruct done as [|d ds _] using rev_ind; [reflexivity|].
    unfold last_total. rewrite last_opt_snoc. simpl.
    rewrite length_app. simpl.
    replace (length ds + 1 =? 0)%nat with false
      by (symmetry; apply Nat.eqb_neq; lia).
    replace (length ds + 1 - 1)%nat with (length ds) by lia.
    now rewrite total_at_app_last. }
  rewrite <- Ht.
  specialize (IH (done ++ [set_total t o])).
  rewrite length_app in IH. simpl in IH.
  rewrite Nat.add_1_r in IH. rewrite <- !app_assoc in IH. simpl in IH.
  rewrite IH. unfold last_total. now rewrite last_opt_snoc.
Qed.

Lemma sumOrders_bid l : sumOrders BID l = sum_bid_from None l.
Proof.
  unfold sumOrders, indexed. apply (sum_bid_fold l []).
Qed.

Lemma sum_ask_length l : length (sum_ask l) = length l.
Proof. induction l; simpl; auto. Qed.

Lemma sum_ask_fold rest : forall done,
  fold_right sum_ask_step (done ++ rest)
    (combine (seq (length done) (length rest)) rest)
  = done ++ sum_ask rest.
Proof.
  induction rest as [|o r IH]; intros done; simpl; [reflexivity|].
  specialize (IH (done ++ [o])).
  rewrite length_app in IH. simpl in IH.
  rewrite Nat.add_1_r in IH. rewrite <- !app_assoc in IH. simpl in IH.
  rewrite IH. rewrite update_at_app. do 3 f_equal.
  rewrite length_app. simpl. rewrite sum_ask_length.
  destruct (sum_ask r) as [|n r'] eqn:E.
  - apply (f_equal (@length _)) in E. rewrite sum_ask_length in E.
    simpl in E. rewrite E.
    replace (length done =? length done + 1 - 1)%nat with true
      by (symmetry; apply Nat.eqb_eq; lia).
    reflexivity.
  - apply (f_equal (@length _)) in E. rewrite sum_ask_length in E.
    simpl in E.
    replace (length done =? length done + S (length r) - 1)%nat with false
      by (symmetry; apply Nat.eqb_neq; lia).
    unfold total_at. rewrite app_nth2 by lia.
    replace (length done + 1 - length done)%nat with 1%nat by lia.
    reflexivity.
Qed.

Lemma sumOrders_ask l : sumOrders ASK l = sum_ask l.
Proof.
  unfold sumOrders, indexed. apply (sum_ask_fold l []).
Qed.

(** ** [slice] and [trim] *)

Lemma In_firstn_list {A} n (l : list A) x : In x (firstn n l) -> In x l.
Proof.
  intros H. rewrite <- (firstn_skipn n l). apply in_or_app. now left.
Qed.

Lemma In_skipn_list {A} n (l : list A) x : In x (skipn n l) -> In x l.
Proof.
  intros H. rewrite <- (firstn_skipn n l). apply in_or_app. now right.
Qed.

Lemma slice_prefix {A} (deep : Z) (l : list A) :
  slice 0 (Some deep) l
  = firstn (Z.to_nat (rel_index (Z.of_nat (length l)) deep)) l.
Proof.
  unfold slice.
  assert (E : rel_index (Z.of_nat (length l)) 0 = 0%Z)
    by (unfold rel_index; simpl; lia).
  rewrite E, Z.sub_0_r. reflexivity.
Qed.

Lemma slice_suffix {A} (start : Z) (l : list A) :
  slice start None l
  = skipn (Z.to_nat (rel_index (Z.of_nat (length l)) start)) l.
Proof.
  unfold slice. apply firstn_all2. rewrite length_skipn.
  unfold rel_index. destruct (start <? 0)%Z; lia.
Qed.

Lemma trim_bid_nonneg deep l :
  (0 <= deep)%Z -> trim BID deep l = firstn (Z.to_nat deep) l.
Proof.
  intros H. unfold trim. rewrite slice_prefix. unfold rel_index.
  destruct (deep <? 0)%Z eqn:E; [lia|].
  destruct (Z.min_spec deep (Z.of_nat (length l))) as [[Hlt ->]|[Hle ->]].
  - reflexivity.
  - rewrite Nat2Z.id. rewrite !firstn_all2; auto; lia.
Qed.

Lemma trim_ask_pos deep l :
  (0 < deep)%Z -> trim ASK deep l = skipn (length l - Z.to_nat deep) l.
Proof.
  intros H. unfold trim. rewrite slice_suffix. unfold rel_index.
  destruct (- deep <? 0)%Z eqn:E; [|lia]. f_equal. lia.
Qed.

Lemma trim_ask_zero l : trim ASK 0 l = l.
Proof.
  unfold trim. rewrite slice_suffix.
  assert (E : rel_index (Z.of_nat (length l)) (- 0) = 0%Z)
    by (unfold rel_index; simpl; lia).
  now rewrite E.
Qed.

Lemma trim_all side deep l :
  (Z.of_nat (length l) <= deep)%Z -> trim side deep l = l.
Proof.
  intros H. destruct side.
  - rewrite trim_bid_nonneg by lia. apply firstn_all2. lia.
  - destruct (Z.eq_dec deep 0) as [->|Hn]; [apply trim_ask_zero|].
    rewrite trim_ask_pos by lia.
    replace (length l - Z.to_nat deep)%nat with 0%nat by lia. reflexivity.
Qed.

Lemma trim_length side deep l :
  (0 < deep)%Z -> (Z.of_nat (length (trim side deep l)) <= deep)%Z.
Proof.
  intros H. destruct side.
  - rewrite trim_bid_nonneg by lia. rewrite length_firstn. lia.
  - rewrite trim_ask_pos by lia. rewrite length_skipn. lia.
Qed.

Lemma trimBook_trim side b l : trimBook side b l = trim side (levelsDeep b) l.
Proof. now destruct side. Qed.

Lemma In_trim side deep l x : In x (trim side deep l) -> In x l.
Proof.
  destruct side; unfold trim.
  - rewrite slice_prefix. apply In_firstn_list.
  - rewrite slice_suffix. apply In_skipn_list.
Qed.

(** ** Aggregation and trimming commute *)

Lemma sum_bid_from_length p l : length (sum_bid_from p l) = length l.
Proof. revert p. induction l; intros; simpl; auto. Qed.

Lemma sumOrders_length side l : length (sumOrders side l) = length l.
Proof.
  destruct side.
  - rewrite sumOrders_bid. apply sum_bid_from_length.
  - rewrite sumOrders_ask. apply sum_ask_length.
Qed.

Lemma sum_bid_from_firstn n : forall p l,
  firstn n (sum_bid_from p l) = sum_bid_from p (firstn n l).
Proof.
  induction n as [|n IH]; intros p [|o r]; simpl; auto. now rewrite IH.
Qed.

Lemma sum_ask_skipn n : forall l, skipn n (sum_ask l) = sum_ask (skipn n l).
Proof.
  induction n as [|n IH]; intros [|o r]; simpl; auto.
Qed.

Lemma trim_sumOrders side deep l :
  trim side deep (sumOrders side l) = sumOrders side (trim side deep l).
Proof.
  destruct side; unfold trim.
  - rewrite !slice_prefix, sumOrders_length, !sumOrders_bid.
    apply sum_bid_from_firstn.
  - rewrite !slice_suffix, sumOrders_length, !sumOrders_ask.
    apply sum_ask_skipn.
Qed.

(** ** The cumulative totals written by [sumOrders] *)

Lemma total_at_cons o l j : total_at (o :: l) (S j) = total_at l j.
Proof. reflexivity. Qed.

Lemma sum_bid_from_totals : forall l p i o,
  nth_error (sum_bid_from p l) i = Some o ->
  total o = match i with
            | O => match p with None => size o | Some t => t + size o end
            | S j => total_at (sum_bid_from p l) j + size o
            end.
Proof.
  induction l as [|x r IH]; intros p i o H; simpl in H.
  - destruct i; discriminate.
  - destruct i as [|j]; simpl in H.
    + injection H as <-. reflexivity.
    + specialize (IH _ _ _ H). destruct j as [|k]; simpl.
      * exact IH.
      * rewrite total_at_cons. exact IH.
Qed.

Lemma sum_bid_from_depth : forall l p i o,
  nth_error (sum_bid_from p l) i = Some o ->
  fold_left add_size (firstn (S i) (sum_bid_from p l)) p = Some (total o).
Proof.
  induction l as [|x r IH]; intros p i o H; simpl in H.
  - destruct i; discriminate.
  - destruct i as [|j]; simpl in H.
    + injection H as <-. reflexivity.
    + specialize (IH _ _ _ H). simpl in *. exact IH.
Qed.

Lemma sum_ask_totals : forall l i o,
  nth_error (sum_ask l) i = Some o ->
  total o = if (S i =? length (sum_ask l))%nat then size o
            else total_at (sum_ask l) (S i) + size o.
Proof.
  induction l as [|x r IH]; intros i o H; simpl in H.
  - destruct i; discriminate.
  - destruct i as [|j]; simpl in H.
    + injection H as <-. simpl.
      destruct (sum_ask r) as [|n r']; reflexivity.
    + specialize (IH _ _ H). cbn [sum_ask length].
      change (S (S j) =? S (length (sum_ask r)))%nat
        with (S j =? length (sum_ask r))%nat.
      rewrite total_at_cons. exact IH.
Qed.

Lemma sum_ask_head_depth : forall l o r,
  sum_ask l = o :: r ->
  fold_left add_size (rev (o :: r)) None = Some (total o).
Proof.
  induction l as [|x l IH]; intros o r H; simpl in H; [discriminate|].
  injection H as <- <-. simpl rev. rewrite fold_left_app. simpl.
  destruct (sum_ask l) as [|n r'] eqn:E.
  - reflexivity.
  - rewrite (IH _ _ eq_refl). reflexivity.
Qed.

Lemma sum_ask_depth l i o :
  nth_error (sum_ask l) i = Some o ->
  sum_sizes (rev (skipn i (sum_ask l))) = Some (total o).
Proof.
  intros H. unfold sum_sizes. rewrite sum_ask_skipn.
  assert (E : exists r, sum_ask (skipn i l) = o :: r).
  { rewrite <- sum_ask_skipn.
    destruct (skipn i (sum_ask l)) as [|y r] eqn:E.
    - apply (f_equal (@length _)) in E. rewrite length_skipn in E. simpl in E.
      assert (i < length (sum_ask l))%nat
        by (apply nth_error_Some; congruence). lia.
    - exists r. f_equal.
      assert (E' : nth_error (skipn i (sum_ask l)) 0 = Some o).
      { rewrite nth_error_skipn. now rewrite Nat.add_0_r. }
      rewrite E in E'. simpl in E'. congruence. }
  destruct E as [r E]. rewrite E. eapply sum_ask_head_depth; eauto.
Qed.

(** A side that already carries its cumulative totals is a fixed point of
    the aggregation. *)
Lemma sum_bid_from_fixed : forall l p,
  (forall i o, nth_error l i = Some o ->
     total o = match i with
               | O => match p with None => size o | Some t => t + size o end
               | S j => total_at l j + size o
               end) ->
  sum_bid_from p l = l.
Proof.
  induction l as [|x r IH]; intros p H; simpl; [reflexivity|].
  pose proof (H 0%nat x eq_refl) as H0. simpl in H0.
  rewrite <- H0, set_total_same. f_equal. apply IH.
  intros i o Hi. specialize (H (S i) o Hi). simpl in H.
  destruct i as [|j]; [|exact H].
  unfold total_at in H. simpl in H. exact H.
Qed.

Lemma sum_ask_fixed : forall l, ask_totals l -> sum_ask l = l.
Proof.
  induction l as [|x r IH]; intros H; simpl; [reflexivity|].
  assert (Hr : ask_totals r).
  { intros i o Hi. specialize (H (S i) o Hi). simpl length in H.
    change (S (S i) =? S (length r))%nat with (S i =? length r)%nat in H.
    rewrite total_at_cons in H. exact H. }
  rewrite (IH Hr).
  pose proof (H 0%nat x eq_refl) as H0. simpl in H0.
  destruct r as [|n r'].
  - simpl in H0. rewrite <- H0. now rewrite set_total_same.
  - simpl in H0. unfold total_at in H0. simpl in H0.
    rewrite <- H0. now rewrite set_total_same.
Qed.

Lemma sumOrders_fixed_bid l : bid_totals l -> sumOrders BID l = l.
Proof. intros H. rewrite sumOrders_bid. now apply sum_bid_from_fixed. Qed.

Lemma sumOrders_fixed_ask l : ask_totals l -> sumOrders ASK l = l.
Proof. intros H. rewrite sumOrders_ask. now apply sum_ask_fixed. Qed.

Lemma sumOrders_bid_totals l : bid_totals (sumOrders BID l).
Proof.
  rewrite sumOrders_bid. intros i o H.
  now rewrite (sum_bid_from_totals _ _ _ _ H).
Qed.

Lemma sumOrders_ask_totals l : ask_totals (sumOrders ASK l).
Proof.
  rewrite sumOrders_ask. intros i o H. now apply sum_ask_totals.
Qed.

Lemma sumOrders_depth side l i o :
  nth_error (sumOrders side l) i = Some o ->
  depth_to side (sumOrders side l) i = Some (total o).
Proof.
  destruct side; unfold depth_to.
  - rewrite sumOrders_bid. apply sum_bid_from_depth.
  - rewrite sumOrders_ask. apply sum_ask_depth.
Qed.

(** ** The binary search of [sortedIndexBy] *)

Lemma half_between low high :
  (low < high)%nat -> (low <= (low + high) / 2 < high)%nat.
Proof.
  intros H.
  pose proof (Nat.div_mod_eq (low + high) 2) as E.
  pose proof (Nat.mod_upper_bound (low + high) 2) as U.
  lia.
Qed.

(** More fuel than [high - low] does not change the result. *)
Lemma bsearch_fuel setLow : forall f1 f2 low high,
  (high - low <= f1)%nat -> (high - low <= f2)%nat ->
  bsearch f1 setLow low high = bsearch f2 setLow low high.
Proof.
  induction f1 as [|f1 IH]; intros f2 low high H1 H2.
  - destruct f2 as [|f2]; cbn [bsearch]; [reflexivity|].
    destruct (low <? high)%nat eqn:E; [|reflexivity].
    apply Nat.ltb_lt in E. lia.
  - destruct f2 as [|f2]; cbn [bsearch].
    + destruct (low <? high)%nat eqn:E; [|reflexivity].
      apply Nat.ltb_lt in E. lia.
    + destruct (low <? high)%nat eqn:E; [|reflexivity].
      apply Nat.ltb_lt in E. pose proof (half_between _ _ E) as Hm.
      destruct (setLow ((low + high) / 2)%nat); apply IH; lia.
Qed.

(** On a test that is true on a prefix of [low .. high) and false after it,
    the search returns the end of that prefix. *)
Lemma bsearch_spec setLow : forall fuel low high,
  (high - low <= fuel)%nat -> (low <= high)%nat ->
  (forall i j, (low <= i)%nat -> (i <= j)%nat -> (j < high)%nat ->
               setLow j = true -> setLow i = true) ->
  let r := bsearch fuel setLow low high in
  (low <= r <= high)%nat /\
  (forall i, (low <= i < r)%nat -> setLow i = true) /\
  (forall i, (r <= i < high)%nat -> setLow i = false).
Proof.
  induction fuel as [|fuel IH]; intros low high Hf Hle Hmono; cbn [bsearch].
  - repeat split; try lia; intros; lia.
  - destruct (low <? high)%nat eqn:E.
    2:{ apply Nat.ltb_ge in E. repeat split; try lia; intros; lia. }
    apply Nat.ltb_lt in E. pose proof (half_between _ _ E) as Hm.
    set (mid := ((low + high) / 2)%nat) in *.
    destruct (setLow mid) eqn:Hmid.
    + destruct (IH (S mid) high) as (Hr & Ht & Hfalse); try lia.
      { intros i j Hi Hij Hj. apply Hmono; lia. }
      repeat split; try lia.
      * intros i Hi. destruct (Nat.le_gt_cases (S mid) i) as [Hge|Hlt].
        -- apply Ht. lia.
        -- apply (Hmono i mid); try lia. exact Hmid.
      * exact Hfalse.
    + destruct (IH low mid) as (Hr & Ht & Hfalse); try lia.
      { intros i j Hi Hij Hj. apply Hmono; lia. }
      repeat split; try lia.
      * exact Ht.
      * intros i Hi. destruct (Nat.le_gt_cases mid i) as [Hge|Hlt].
        -- destruct (setLow i) eqn:Hi'; [|reflexivity].
           rewrite (Hmono mid i) in Hmid; try lia. exact Hi'.
        -- apply Hfalse. lia.
Qed.

(** ** Sorted sides *)

Lemma Forall_firstn_nth {A} (P : A -> Prop) d : forall l r,
  (r <= length l)%nat ->
  (forall i, (i < r)%nat -> P (nth i l d)) -> Forall P (firstn r l).
Proof.
  induction l as [|x l IH]; intros [|r] Hr H; simpl in *;
    try (constructor; fail); try lia.
  constructor.
  - apply (H 0%nat). lia.
  - apply IH; [lia|]. intros i Hi. apply (H (S i)). lia.
Qed.

Lemma Forall_skipn_nth {A} (P : A -> Prop) d : forall l r,
  (forall i, (r <= i < length l)%nat -> P (nth i l d)) -> Forall P (skipn r l).
Proof.
  induction l as [|x l IH]; intros [|r] H; simpl in *;
    try (constructor; fail).
  - constructor.
    + apply (H 0%nat). lia.
    + apply (IH 0%nat). intros i Hi. apply (H (S i)). lia.
  - apply IH. intros i Hi. apply (H (S i)). lia.
Qed.

Lemma sumOrders_prices side l : map price (sumOrders side l) = map price l.
Proof.
  destruct side.
  - rewrite sumOrders_bid. generalize (@None float).
    induction l as [|a l IH]; intros p; simpl; [reflexivity|]. now rewrite IH.
  - rewrite sumOrders_ask.
    induction l as [|a l IH]; simpl; [reflexivity|]. now rewrite IH.
Qed.

Lemma sumOrders_sizes side l : map size (sumOrders side l) = map size l.
Proof.
  destruct side.
  - rewrite sumOrders_bid. generalize (@None float).
    induction l as [|a l IH]; intros p; simpl; [reflexivity|]. now rewrite IH.
  - rewrite sumOrders_ask.
    induction l as [|a l IH]; simpl; [reflexivity|]. now rewrite IH.
Qed.

(** Lists of levels sorted by a relation that looks at prices only; the
    stages of the pipeline keep them sorted. *)
Section PriceOrder.

Variable R : Order -> Order -> Prop.
Hypothesis R_prices : forall a a' b b',
  price a = price a' -> price b = price b' -> R a b -> R a' b'.

Lemma sorted_nth l : StronglySorted R l ->
  forall i j d, (i < j)%nat -> (j < length l)%nat ->
  R (nth i l d) (nth j l d).
Proof.
  induction 1 as [|a l Hs IH Ha]; intros i j d Hij Hj; simpl in Hj; [lia|].
  destruct j as [|j]; [lia|]. destruct i as [|i]; simpl.
  - rewrite Forall_forall in Ha. apply Ha. apply nth_In. lia.
  - apply IH; lia.
Qed.

Lemma sorted_insert x : forall l r,
  StronglySorted R l ->
  Forall (fun o => R o x) (firstn r l) ->
  Forall (R x) (skipn r l) ->
  StronglySorted R (splice_insert r x l).
Proof.
  unfold splice_insert.
  induction l as [|a l IH]; intros r Hd Hb Ha.
  - destruct r; simpl; repeat constructor.
  - apply StronglySorted_inv in Hd. destruct Hd as [Hd Hal].
    destruct r as [|r]; simpl in *.
    + constructor; [constructor; assumption|exact Ha].
    + inversion Hb; subst. constructor.
      * apply IH; assumption.
      * apply Forall_app. split.
        -- apply Forall_forall. intros y Hy.
           rewrite Forall_forall in Hal. apply Hal.
           eapply In_firstn_list; eauto.
        -- constructor; [assumption|].
           apply Forall_forall. intros y Hy.
           rewrite Forall_forall in Hal. apply Hal.
           eapply In_skipn_list; eauto.
Qed.

Lemma sorted_same_prices : forall l1 l2,
  map price l1 = map price l2 -> StronglySorted R l1 -> StronglySorted R l2.
Proof.
  induction l1 as [|a l1 IH]; intros [|b l2] E Hd; try discriminate.
  - constructor.
  - simpl in E. injection E as Eab E.
    apply StronglySorted_inv in Hd. destruct Hd as [Hd Ha].
    constructor; [eapply IH; eauto|].
    clear IH Hd. revert l2 E.
    induction Ha as [|y l1 Hy Hl IH]; intros [|z l2] E;
      try discriminate; constructor.
    + simpl in E. injection E as Eyz E. eapply R_prices; eauto.
    + simpl in E. injection E as Eyz E. now apply IH.
Qed.

Lemma update_at_prices g : (forall o, price (g o) = price o) ->
  forall (l : list Order) i, map price (update_at i g l) = map price l.
Proof.
  intros Hg. induction l as [|a l IH]; intros [|i]; simpl; auto.
  - now rewrite Hg.
  - now rewrite IH.
Qed.

Lemma sorted_update g : (forall o, price (g o) = price o) ->
  forall l i, StronglySorted R l -> StronglySorted R (update_at i g l).
Proof.
  intros Hg l i. apply sorted_same_prices. symmetry.
  now apply update_at_prices.
Qed.

Lemma sorted_filter f l :
  StronglySorted R l -> StronglySorted R (filter f l).
Proof.
  induction 1 as [|a l Hs IH Ha]; simpl; [constructor|].
  destruct (f a); [|assumption]. constructor; [assumption|].
  apply Forall_forall. intros y Hy. apply filter_In in Hy.
  rewrite Forall_forall in Ha. now apply Ha.
Qed.

Lemma sorted_app l1 l2 :
  StronglySorted R (l1 ++ l2) -> StronglySorted R l1 /\ StronglySorted R l2.
Proof.
  induction l1 as [|a l1 IH]; simpl; intros H.
  - split; [constructor|assumption].
  - apply StronglySorted_inv in H. destruct H as [H Ha].
    destruct (IH H) as [H1 H2]. split; [|assumption].
    constructor; [assumption|]. apply Forall_app in Ha. tauto.
Qed.

Lemma sorted_trim side deep l :
  StronglySorted R l -> StronglySorted R (trim side deep l).
Proof.
  intros H. destruct side; unfold trim.
  - rewrite slice_prefix.
    set (n := Z.to_nat (rel_index (Z.of_nat (length l)) deep)).
    rewrite <- (firstn_skipn n l) in H. apply sorted_app in H. apply H.
  - rewrite slice_suffix.
    set (n := Z.to_nat (rel_index (Z.of_nat (length l)) (- deep))).
    rewrite <- (firstn_skipn n l) in H. apply sorted_app in H. apply H.
Qed.

Lemma sorted_sumOrders side l :
  StronglySorted R l -> StronglySorted R (sumOrders side l).
Proof.
  apply sorted_same_prices. symmetry. apply sumOrders_prices.
Qed.

End PriceOrder.

(** ** The two orders on levels *)

Lemma above_trans a b c : above a b -> above b c -> above a c.
Proof. unfold above. intros H1 H2. eapply fltb_trans; eauto. Qed.

Lemma above_irrefl a : ~ above a a.
Proof. unfold above. rewrite fltb_irrefl. discriminate. Qed.

Lemma above_no_nan a b :
  above a b -> isNaN (price a) = false /\ isNaN (price b) = false.
Proof. unfold above. intros H. apply fltb_no_nan in H. tauto. Qed.

Lemma above_prices a a' b b' :
  price a = price a' -> price b = price b' -> above a b -> above a' b'.
Proof. unfold above. congruence. Qed.

Lemma sorts_before_prices a a' b b' :
  price a = price a' -> price b = price b' ->
  sorts_before a b -> sorts_before a' b'.
Proof.
  unfold sorts_before, above. intros Ea Eb [H|[H1 H2]].
  - left. congruence.
  - right. split; congruence.
Qed.

Lemma sorts_before_irrefl a : ~ sorts_before a a.
Proof.
  intros [H|[H1 H2]]; [now apply above_irrefl in H|congruence].
Qed.

Lemma sorts_before_trans a b c :
  sorts_before a b -> sorts_before b c -> sorts_before a c.
Proof.
  intros [H1|[H1 H1']] [H2|[H2 H2']].
  - left. eapply above_trans; eauto.
  - right. split; [assumption|]. apply above_no_nan in H1. tauto.
  - apply above_no_nan in H2. destruct H2. congruence.
  - congruence.
Qed.

Lemma same_key_left a b c : same_key a b -> sorts_before a c -> sorts_before b c.
Proof.
  unfold same_key, same_price, sorts_before, above.
  intros [E|[E1 E2]] [H|[H1 H2]].
  - left. now rewrite <- (feqb_ltb_r _ _ _ E).
  - right. split; [assumption|]. apply feqb_no_nan in E. tauto.
  - apply fltb_no_nan in H. destruct H. congruence.
  - congruence.
Qed.

Lemma same_key_right a b c : same_key b c -> sorts_before a b -> sorts_before a c.
Proof.
  unfold same_key, same_price, sorts_before, above.
  intros [E|[E1 E2]] [H|[H1 H2]].
  - left. now rewrite <- (feqb_ltb_l _ _ _ E).
  - apply feqb_no_nan in E. destruct E. congruence.
  - apply fltb_no_nan in H. destruct H. congruence.
  - right. split; assumption.
Qed.

Lemma sorts_before_differ a b :
  sorts_before a b -> (price a =? price b) = false.
Proof.
  intros [H|[H1 H2]].
  - unfold above in H. rewrite feqb_sym. now apply fltb_not_eqb.
  - destruct (price a =? price b) eqn:E; [|reflexivity].
    apply feqb_no_nan in E. destruct E. congruence.
Qed.

Lemma descending_merge_sorted l : descending l -> merge_sorted l.
Proof.
  unfold descending, merge_sorted.
  induction 1 as [|a l Hs IH Ha]; constructor; [assumption|].
  eapply Forall_impl; [|exact Ha]. intros o Ho. now left.
Qed.

Lemma merge_sorted_descending l :
  merge_sorted l -> no_nan_prices l -> descending l.
Proof.
  unfold descending, merge_sorted, no_nan_prices.
  induction 1 as [|a l Hs IH Ha]; intros Hn; constructor.
  - apply IH. now inversion Hn.
  - inversion Hn as [|? ? Hna Hnl]; subst.
    rewrite Forall_forall in *. intros o Ho.
    destruct (Ha o Ho) as [H|[H _]]; [assumption|].
    rewrite (Hnl o Ho) in H. discriminate.
Qed.

Lemma merge_sorted_unique l : merge_sorted l -> unique_prices l.
Proof.
  induction 1 as [|a l Hs IH Ha]; constructor; [|assumption].
  eapply Forall_impl; [|exact Ha]. intros o. apply sorts_before_differ.
Qed.

Lemma descending_inv a l :
  descending (a :: l) -> descending l /\ Forall (above a) l.
Proof. apply StronglySorted_inv. Qed.

Lemma descending_unique l : descending l -> unique_prices l.
Proof. intros H. now apply merge_sorted_unique, descending_merge_sorted. Qed.

(** ** [findIndex] *)

Lemma findIndex_none {A} (p : A -> bool) l :
  findIndex p l = None -> Forall (fun x => p x = false) l.
Proof.
  induction l as [|x l IH]; simpl; intros H; constructor.
  - destruct (p x); [discriminate|reflexivity].
  - apply IH. destruct (p x); [discriminate|].
    destruct (findIndex p l); [discriminate|reflexivity].
Qed.

Lemma findIndex_some {A} (p : A -> bool) l i :
  findIndex p l = Some i ->
  exists x, nth_error l i = Some x /\ p x = true /\ find p l = Some x.
Proof.
  revert i. induction l as [|x l IH]; simpl; intros i H; [discriminate|].
  destruct (p x) eqn:E.
  - injection H as <-. exists x. auto.
  - destruct (findIndex p l) as [j|]; [|discriminate].
    injection H as <-. destruct (IH j eq_refl) as (y & Hy & Hp & Hf).
    exists y. auto.
Qed.

(** ** The insertion point on a sorted side *)

Lemma sortedIndexBy_sorted l order :
  merge_sorted l -> isNaN (price order) = false ->
  let r := sortedIndexBy l order (fun o => - price o) in
  (r <= length l)%nat /\
  Forall (fun o => above o order) (firstn r l) /\
  Forall (fun o => (price order <? price o) = false) (skipn r l).
Proof.
  intros Hd Hn. unfold sortedIndexBy.
  destruct l as [|d l'] eqn:El; [simpl; repeat split; constructor|].
  rewrite <- El in *. rewrite isNaN_opp, Hn. cbv beta zeta iota.
  set (setLow := fun mid => - price (nth mid l d) <? - price order).
  destruct (bsearch_spec setLow (length l) 0 (length l)) as (Hr & Ht & Hf);
    try lia.
  { intros i j _ Hij Hj. unfold setLow. rewrite !fltb_opp. intros H.
    destruct (Nat.eq_dec i j) as [->|Hne]; [exact H|].
    destruct (sorted_nth _ l Hd i j d) as [Ha|[Ha _]]; try lia.
    - eapply fltb_trans; [exact H|exact Ha].
    - apply fltb_no_nan in H. destruct H. congruence. }
  split; [apply Hr|]. split.
  - apply (Forall_firstn_nth _ d); [apply Hr|]. intros i Hi.
    assert (H : setLow i = true) by (apply Ht; lia).
    unfold setLow in H. now rewrite fltb_opp in H.
  - apply (Forall_skipn_nth _ d). intros i Hi.
    assert (H : setLow i = false) by (apply Hf; lia).
    unfold setLow in H. now rewrite fltb_opp in H.
Qed.

(** ** [upsert] keeps a side sorted *)

Lemma upsert_step_sorted l order :
  merge_sorted l -> isNaN (price order) = false ->
  merge_sorted (upsert_step l order).
Proof.
  intros Hd Hn. unfold upsert_step.
  destruct (findIndex (fun o => price o =? price order) l) as [i|] eqn:E.
  - apply sorted_update; auto. exact sorts_before_prices.
  - destruct (sortedIndexBy_sorted l order Hd Hn) as (Hr & Hb & Ha).
    apply sorted_insert; [assumption| |].
    + eapply Forall_impl; [|exact Hb]. intros o Ho. now left.
    + apply findIndex_none in E. rewrite Forall_forall in *.
      intros o Ho. pose proof (Ha o Ho) as Hlt.
      pose proof (E o (In_skipn_list _ _ _ Ho)) as Hne.
      destruct (isNaN (price o)) eqn:No; [now right|].
      left. unfold above. apply fltb_total; auto. now rewrite feqb_sym.
Qed.

Lemma no_nan_update g : (forall o, price (g o) = price o) ->
  forall l i, no_nan_prices l -> no_nan_prices (update_at i g l).
Proof.
  intros Hg. induction l as [|a l IH]; intros i H; [destruct i; exact H|].
  inversion H; subst. destruct i; simpl; constructor; auto.
  - now rewrite Hg.
  - now apply IH.
Qed.

Lemma no_nan_insert x l r :
  no_nan_prices l -> isNaN (price x) = false ->
  no_nan_prices (splice_insert r x l).
Proof.
  intros Hl Hx. unfold splice_insert, no_nan_prices in *.
  rewrite <- (firstn_skipn r l) in Hl. apply Forall_app in Hl.
  destruct Hl as [H1 H2]. apply Forall_app. split; [assumption|].
  now constructor.
Qed.

Lemma upsert_step_no_nan l order :
  no_nan_prices l -> isNaN (price order) = false ->
  no_nan_prices (upsert_step l order).
Proof.
  intros Hl Hn. unfold upsert_step.
  destruct (findIndex (fun o => price o =? price order) l) as [i|].
  - now apply no_nan_update.
  - now apply no_nan_insert.
Qed.

Lemma upsert_all_sorted newOrders : forall l,
  merge_sorted l -> no_nan_prices newOrders ->
  merge_sorted (upsert_all newOrders l).
Proof.
  unfold upsert_all.
  induction newOrders as [|b B IH]; intros l Hd HB; simpl; [auto|].
  inversion HB; subst. apply IH; [|assumption].
  now apply upsert_step_sorted.
Qed.

Lemma upsert_all_no_nan newOrders : forall l,
  no_nan_prices l -> no_nan_prices newOrders ->
  no_nan_prices (upsert_all newOrders l).
Proof.
  unfold upsert_all.
  induction newOrders as [|b B IH]; intros l Hl HB; simpl; [auto|].
  inversion HB; subst. apply IH; [|assumption].
  now apply upsert_step_no_nan.
Qed.

Lemma mapOrders_no_nan feed : feed_no_nan feed -> no_nan_prices (mapOrders feed).
Proof.
  unfold feed_no_nan, no_nan_prices, mapOrders. intros H.
  apply Forall_map. eapply Forall_impl; [|exact H]. auto.
Qed.

Lemma no_nan_sub (l l' : list Order) :
  (forall x, In x l' -> In x l) -> no_nan_prices l -> no_nan_prices l'.
Proof.
  unfold no_nan_prices. rewrite !Forall_forall. auto.
Qed.

Lemma no_nan_same_prices : forall l1 l2,
  map price l1 = map price l2 -> no_nan_prices l1 -> no_nan_prices l2.
Proof.
  induction l1 as [|a l1 IH]; intros [|b l2] E H; try discriminate;
    constructor.
  - simpl in E. injection E as Eab E. inversion H; subst. congruence.
  - simpl in E. injection E as Eab E. inversion H; subst. eapply IH; eauto.
Qed.

Lemma no_nan_In l x : no_nan_prices l -> In x l -> isNaN (price x) = false.
Proof. unfold no_nan_prices. rewrite Forall_forall. auto. Qed.

Lemma filterEmptyOrders_In l x :
  In x (filterEmptyOrders l) <-> In x l /\ (0 <? size x) = true.
Proof. apply filter_In. Qed.

(** The whole pipeline of a side keeps it sorted, and free of NaN prices
    when side and batch are. *)
Lemma run_side_sorted side deep feed l :
  merge_sorted l -> feed_no_nan feed ->
  merge_sorted (run_side side deep feed l).
Proof.
  intros Hd Hf. unfold run_side.
  apply sorted_trim, sorted_sumOrders, sorted_filter.
  - exact sorts_before_prices.
  - apply upsert_all_sorted; [assumption|now apply mapOrders_no_nan].
Qed.

Lemma run_side_no_nan side deep feed l :
  no_nan_prices l -> feed_no_nan feed ->
  no_nan_prices (run_side side deep feed l).
Proof.
  intros Hl Hf. unfold run_side.
  eapply no_nan_sub; [apply In_trim|].
  eapply no_nan_same_prices; [symmetry; apply sumOrders_prices|].
  eapply no_nan_sub;
    [|apply (upsert_all_no_nan (mapOrders feed) l Hl);
      now apply mapOrders_no_nan].
  intros x Hx. now apply filterEmptyOrders_In in Hx.
Qed.

Lemma run_side_descending side deep feed l :
  descending l -> no_nan_prices l -> feed_no_nan feed ->
  descending (run_side side deep feed l).
Proof.
  intros Hd Hl Hf. apply merge_sorted_descending.
  - apply run_side_sorted; [now apply descending_merge_sorted|assumption].
  - now apply run_side_no_nan.
Qed.

(** ** The level of a price after [upsert] *)

Lemma find_app {A} (f : A -> bool) l1 l2 :
  find f (l1 ++ l2) = match find f l1 with
                      | Some x => Some x
                      | None => find f l2
                      end.
Proof.
  induction l1 as [|x l1 IH]; simpl; [reflexivity|]. now destruct (f x).
Qed.

Lemma find_none_Forall {A} (f : A -> bool) l :
  Forall (fun x => f x = false) l -> find f l = None.
Proof.
  induction 1 as [|x l Hx Hl IH]; simpl; [reflexivity|]. now rewrite Hx.
Qed.

Lemma findIndex_ext {A} (p q : A -> bool) l :
  (forall x, p x = q x) -> findIndex p l = findIndex q l.
Proof.
  intros H. induction l as [|x l IH]; simpl; [reflexivity|].
  now rewrite H, IH.
Qed.

Lemma look_update_other g : (forall o, price (g o) = price o) ->
  forall l i p,
  (forall x, nth_error l i = Some x -> (price x =? p) = false) ->
  look (update_at i g l) p = look l p.
Proof.
  intros Hg. unfold look.
  induction l as [|a l IH]; intros i p H; [destruct i; reflexivity|].
  destruct i as [|i]; simpl.
  - rewrite Hg. now rewrite (H a eq_refl).
  - rewrite IH; [reflexivity|]. intros x Hx. now apply H.
Qed.

Lemma look_update_first g : (forall o, price (g o) = price o) ->
  forall l i p,
  findIndex (fun o => price o =? p) l = Some i ->
  look (update_at i g l) p = option_map g (look l p).
Proof.
  intros Hg. unfold look.
  induction l as [|a l IH]; intros i p H; simpl in H; [discriminate|].
  destruct (price a =? p) eqn:E.
  - injection H as <-. simpl. now rewrite Hg, E.
  - destruct (findIndex (fun o => price o =? p) l) as [j|] eqn:Ej;
      [|discriminate].
    injection H as <-. simpl. rewrite E. now apply IH.
Qed.

Lemma look_upsert_step l b p :
  look (upsert_step l b) p =
  if price b =? p
  then Some (match look l p with
             | Some o => set_size (size b) o
             | None => b
             end)
  else look l p.
Proof.
  unfold upsert_step.
  destruct (findIndex (fun o => price o =? price b) l) as [i|] eqn:E.
  - destruct (price b =? p) eqn:Ebp.
    + rewrite (findIndex_ext _ (fun o => price o =? p)) in E
        by (intros x; now apply feqb_eqb_r).
      rewrite (look_update_first (set_size (size b)) (fun o => eq_refl) _ _ _ E).
      destruct (findIndex_some _ _ _ E) as (x & _ & _ & Hf).
      unfold look. now rewrite Hf.
    + apply (look_update_other (set_size (size b))); [reflexivity|].
      intros x Hx. destruct (findIndex_some _ _ _ E) as (y & Hy & Hp & _).
      assert (y = x) by congruence. subst y.
      now rewrite (feqb_eqb_l _ _ p Hp).
  - apply findIndex_none in E. unfold splice_insert, look.
    set (r := sortedIndexBy l b (fun o => - price o)).
    rewrite find_app. simpl.
    destruct (price b =? p) eqn:Ebp.
    + assert (E' : Forall (fun o => (price o =? p) = false) l).
      { eapply Forall_impl; [|exact E]. intros o Ho.
        now rewrite <- (feqb_eqb_r _ _ (price o) Ebp). }
      rewrite (find_none_Forall _ l E').
      rewrite find_none_Forall; [reflexivity|].
      apply Forall_forall. intros y Hy. rewrite Forall_forall in E'.
      apply E'. eapply In_firstn_list; eauto.
    + transitivity (find (fun o => price o =? p) (firstn r l ++ skipn r l));
        [now rewrite find_app | now rewrite firstn_skipn].
Qed.

Lemma set_size_twice s s' o : set_size s (set_size s' o) = set_size s o.
Proof. reflexivity. Qed.

(** A level the side holds keeps its price and total; its size is the last
    one the batch gives for its price. *)
Lemma look_upsert_some newOrders : forall l p o,
  look l p = Some o ->
  look (upsert_all newOrders l) p
  = Some (set_size (final_size newOrders p (size o)) o).
Proof.
  unfold upsert_all, final_size.
  induction newOrders as [|b B IH]; intros l p o H; simpl.
  - now rewrite set_size_same.
  - pose proof (look_upsert_step l b p) as Hs. rewrite H in Hs.
    destruct (price b =? p) eqn:Ebp.
    + rewrite (IH _ _ _ Hs). reflexivity.
    + rewrite (IH _ _ _ Hs). reflexivity.
Qed.

(** A price the side does not hold gets the level [inserted] by the
    batch, if any. *)
Lemma look_upsert_none newOrders : forall l p,
  look l p = None ->
  look (upsert_all newOrders l) p = inserted newOrders p.
Proof.
  induction newOrders as [|b B IH]; intros l p H; simpl; [exact H|].
  pose proof (look_upsert_step l b p) as Hs. rewrite H in Hs.
  destruct (price b =? p) eqn:Ebp.
  - change (upsert_all (b :: B) l) with (upsert_all B (upsert_step l b)).
    now rewrite (look_upsert_some _ _ _ _ Hs).
  - change (upsert_all (b :: B) l) with (upsert_all B (upsert_step l b)).
    now apply IH.
Qed.

Lemma final_size_cases newOrders p :
  (forall d d', final_size newOrders p d = final_size newOrders p d') \/
  (forall d, final_size newOrders p d = d).
Proof.
  unfold final_size.
  induction newOrders as [|b B IH]; simpl; [now right|].
  destruct IH as [IH|IH].
  - left. intros d d'. apply IH.
  - destruct (price b =? p).
    + left. intros d d'. now rewrite !IH.
    + right. exact IH.
Qed.

Lemma final_size_idem newOrders p d :
  final_size newOrders p (final_size newOrders p d) = final_size newOrders p d.
Proof.
  destruct (final_size_cases newOrders p) as [H|H].
  - apply H.
  - now rewrite !H.
Qed.

Lemma inserted_size newOrders p y :
  inserted newOrders p = Some y ->
  forall d, final_size newOrders p d = size y.
Proof.
  induction newOrders as [|b B IH]; simpl; intros H d; [discriminate|].
  unfold final_size in *. simpl.
  destruct (price b =? p).
  - injection H as <-. reflexivity.
  - now apply IH.
Qed.

Lemma look_In l p x : look l p = Some x -> In x l /\ (price x =? p) = true.
Proof. apply find_some. Qed.

Lemma In_look l x :
  unique_prices l -> In x l -> isNaN (price x) = false ->
  look l (price x) = Some x.
Proof.
  unfold look. induction 1 as [|a l Ha Hl IH]; intros Hx Hn; [destruct Hx|].
  simpl. destruct Hx as [->|Hx].
  - now rewrite feqb_refl.
  - rewrite Forall_forall in Ha. rewrite (Ha _ Hx). now apply IH.
Qed.

(** ** The best levels of a sorted list *)

Section Stable.

Variable A : Type.
Variables R E : A -> A -> Prop.
Hypothesis R_irrefl : forall a, ~ R a a.
Hypothesis R_trans : forall a b c, R a b -> R b c -> R a c.
Hypothesis E_left : forall a b c, E a b -> R a c -> R b c.
Hypothesis E_right : forall a b c, E b c -> R a b -> R a c.

(** If a sorted list [Y] holds the first [k] elements of a sorted list [X]
    and everything in [Y] has a counterpart in [X], then [Y] begins with
    the same [k] elements. *)
Lemma firstn_stable k : forall X Y,
  StronglySorted R X -> StronglySorted R Y ->
  (forall x, In x (firstn k X) -> In x Y) ->
  (forall y, In y Y -> exists x, In x X /\ E y x) ->
  firstn k Y = firstn k X.
Proof.
  induction k as [|k IH]; intros X Y HX HY Hsub Hrep; [reflexivity|].
  destruct X as [|x0 X'].
  - destruct Y as [|y0 Y']; [reflexivity|].
    destruct (Hrep y0 (or_introl eq_refl)) as (x & [] & _).
  - apply StronglySorted_inv in HX. destruct HX as [HX' Hx0].
    rewrite Forall_forall in Hx0.
    destruct Y as [|y0 Y'].
    { destruct (Hsub x0 (or_introl eq_refl)). }
    apply StronglySorted_inv in HY. destruct HY as [HY' Hy0].
    rewrite Forall_forall in Hy0.
    assert (E0 : y0 = x0).
    { destruct (Hsub x0 (or_introl eq_refl)) as [Heq|Hin]; [assumption|].
      exfalso. pose proof (Hy0 _ Hin) as Ryx.
      destruct (Hrep y0 (or_introl eq_refl)) as (x & [<-|Hx] & Hex).
      - exact (R_irrefl _ (E_left _ _ _ Hex Ryx)).
      - apply (R_irrefl x). apply (R_trans _ x0); [|now apply Hx0].
        exact (E_left _ _ _ Hex Ryx). }
    subst y0. simpl. f_equal. apply IH; try assumption.
    + intros x Hx. destruct (Hsub x (or_intror Hx)) as [<-|Hin]; [|assumption].
      exfalso. apply (R_irrefl x0). apply Hx0. eapply In_firstn_list; eauto.
    + intros y Hy. destruct (Hrep y (or_intror Hy)) as (x & [<-|Hx] & Hex).
      * exfalso. apply (R_irrefl x0).
        exact (E_right _ _ _ Hex (Hy0 _ Hy)).
      * exists x. auto.
Qed.

Lemma all_stable X Y :
  StronglySorted R X -> StronglySorted R Y ->
  (forall x, In x X -> In x Y) ->
  (forall y, In y Y -> exists x, In x X /\ E y x) ->
  Y = X.
Proof.
  intros HX HY Hsub Hrep.
  pose proof (firstn_stable (Nat.max (length X) (length Y)) X Y HX HY) as H.
  rewrite !firstn_all2 in H by lia. apply H; assumption.
Qed.

End Stable.

Lemma StronglySorted_rev {A} (R : A -> A -> Prop) l :
  StronglySorted R l -> StronglySorted (fun a b => R b a) (rev l).
Proof.
  induction 1 as [|a l Hs IH Ha]; simpl; [constructor|].
  revert IH. generalize (rev_involutive l).
  assert (Ha' : Forall (R a) (rev l)).
  { apply Forall_forall. intros x Hx. rewrite Forall_forall in Ha.
    apply Ha. now apply in_rev. }
  clear Ha Hs. generalize dependent (rev l). intros l' Ha' _ Hs.
  induction Hs as [|b l' Hs IH Hb]; simpl.
  - repeat constructor.
  - inversion Ha'; subst. constructor; [now apply IH|].
    apply Forall_app. split; [assumption|]. now repeat constructor.
Qed.

(** What [trim] keeps of a sorted side does not change when levels
    farther from the spread come and go. *)
Lemma trim_stable side deep X Y :
  (0 <= deep)%Z -> merge_sorted X -> merge_sorted Y ->
  (forall x, In x (trim side deep X) -> In x Y) ->
  (forall y, In y Y -> exists x, In x X /\ same_key y x) ->
  trim side deep Y = trim side deep X.
Proof.
  intros Hdeep HX HY Hsub Hrep. destruct side.
  - rewrite !trim_bid_nonneg in * by assumption.
    apply (firstn_stable Order sorts_before same_key); auto.
    + exact sorts_before_irrefl.
    + exact sorts_before_trans.
    + exact same_key_left.
    + exact same_key_right.
  - destruct (Z.eq_dec deep 0) as [->|Hne].
    + rewrite !trim_ask_zero in *.
      apply (all_stable Order sorts_before same_key); auto.
      * exact sorts_before_irrefl.
      * exact sorts_before_trans.
      * exact same_key_left.
      * exact same_key_right.
    + rewrite !trim_ask_pos in * by lia.
      rewrite <- (rev_involutive (skipn _ Y)), <- (rev_involutive (skipn _ X)).
      rewrite <- !firstn_rev. f_equal.
      apply (firstn_stable Order (fun a b => sorts_before b a) same_key).
      * intros a. apply sorts_before_irrefl.
      * intros a b c H1 H2. eapply sorts_before_trans; eauto.
      * intros a b c He H. eapply same_key_right; eauto.
      * intros a b c He H. eapply same_key_left; eauto.
      * now apply StronglySorted_rev.
      * now apply StronglySorted_rev.
      * intros x Hx. apply (proj1 (in_rev _ _)). apply Hsub.
        rewrite firstn_rev in Hx. now apply (proj2 (in_rev _ _)) in Hx.
      * intros y Hy. apply (proj2 (in_rev _ _)) in Hy.
        destruct (Hrep y Hy) as (x & Hx & He). exists x. split; [|assumption].
        now apply (proj1 (in_rev _ _)).
Qed.

(** ** Levels with a NaN price

    [findIndex] never matches them, so a batch whose prices are not NaN
    leaves them alone and adds none. *)

Lemma In_update_at_keep {A} (g : A -> A) x : forall l i,
  In x l -> nth_error l i <> Some x -> In x (update_at i g l).
Proof.
  induction l as [|a l IH]; intros [|i] Hx Hi; simpl in *; auto.
  - destruct Hx as [->|Hx]; [congruence|now right].
  - destruct Hx as [->|Hx]; [now left|right; now apply IH].
Qed.

Lemma In_update_at_inv {A} (g : A -> A) x : forall l i,
  In x (update_at i g l) ->
  In x l \/ exists y, nth_error l i = Some y /\ x = g y.
Proof.
  induction l as [|a l IH]; intros [|i] Hx; simpl in *; auto.
  - destruct Hx as [<-|Hx]; [right; eauto|left; now right].
  - destruct Hx as [<-|Hx]; [left; now left|].
    destruct (IH i Hx) as [H|H]; [left; now right|now right].
Qed.

Lemma In_splice_insert {A} (b x : A) l r :
  In x (splice_insert r b l) <-> x = b \/ In x l.
Proof.
  unfold splice_insert. rewrite in_app_iff. simpl.
  rewrite <- (firstn_skipn r l) at 3. rewrite in_app_iff.
  intuition congruence.
Qed.

Lemma nan_level_kept newOrders x : forall l,
  In x l -> isNaN (price x) = true -> In x (upsert_all newOrders l).
Proof.
  unfold upsert_all.
  induction newOrders as [|b B IH]; intros l Hx Hn; simpl; [assumption|].
  apply IH; [|assumption]. unfold upsert_step.
  destruct (findIndex (fun o => price o =? price b) l) as [i|] eqn:E.
  - apply In_update_at_keep; [assumption|]. intros Hi.
    destruct (findIndex_some _ _ _ E) as (y & Hy & Hp & _).
    assert (y = x) by congruence. subst y.
    apply feqb_no_nan in Hp. destruct Hp. congruence.
  - apply In_splice_insert. now right.
Qed.

Lemma nan_level_origin newOrders y : forall l,
  no_nan_prices newOrders ->
  In y (upsert_all newOrders l) -> isNaN (price y) = true -> In y l.
Proof.
  unfold upsert_all.
  induction newOrders as [|b B IH]; intros l HB Hy Hn; simpl in Hy;
    [assumption|].
  inversion HB as [|? ? Hb HB']; subst.
  specialize (IH _ HB' Hy Hn). unfold upsert_step in IH.
  destruct (findIndex (fun o => price o =? price b) l) as [i|] eqn:E.
  - apply In_update_at_inv in IH. destruct IH as [H|(z & Hz & ->)]; [assumption|].
    destruct (findIndex_some _ _ _ E) as (z' & Hz' & Hp & _).
    assert (z' = z) by congruence. subst z'.
    apply feqb_no_nan in Hp. destruct Hp. simpl in Hn. congruence.
  - apply In_splice_insert in IH. destruct IH as [->|H]; [congruence|assumption].
Qed.

Lemma same_price_key a b : same_price a b -> same_key a b.
Proof. now left. Qed.

(** ** Merging the same batch twice *)

Lemma merge_side_sorted side deep newOrders l :
  merge_sorted l -> no_nan_prices newOrders ->
  merge_sorted (merge_side side deep newOrders l).
Proof.
  intros Hd HB. unfold merge_side.
  apply sorted_trim, sorted_filter.
  now apply upsert_all_sorted.
Qed.

Lemma merge_side_idempotent side deep newOrders l :
  (0 <= deep)%Z -> merge_sorted l -> no_nan_prices newOrders ->
  merge_side side deep newOrders (merge_side side deep newOrders l)
  = merge_side side deep newOrders l.
Proof.
  intros Hdeep Hd HB.
  pose proof (merge_side_sorted side deep newOrders l Hd HB) as Hd1.
  pose proof (upsert_all_sorted newOrders l Hd HB) as HdU.
  pose proof (upsert_all_sorted newOrders _ Hd1 HB) as HdU1.
  set (T1 := merge_side side deep newOrders l) in *.
  unfold merge_side at 1. fold T1.
  assert (HT1 : forall x, In x T1 ->
                  In x (upsert_all newOrders l) /\ (0 <? size x) = true).
  { intros x Hx. apply filterEmptyOrders_In. eapply In_trim. exact Hx. }
  apply trim_stable; try assumption.
  - now apply sorted_filter.
  - now apply sorted_filter.
  - (* the kept levels are still there, unchanged *)
    intros x Hx. destruct (HT1 x Hx) as [HxU Hpos].
    apply filterEmptyOrders_In. split; [|assumption].
    destruct (isNaN (price x)) eqn:Hnan; [now apply nan_level_kept|].
    pose proof (In_look _ _ (merge_sorted_unique _ HdU) HxU Hnan) as LU.
    pose proof (In_look _ _ (merge_sorted_unique _ Hd1) Hx Hnan) as L1.
    assert (Hfs : final_size newOrders (price x) (size x) = size x).
    { destruct (look l (price x)) as [o|] eqn:Ll.
      - rewrite (look_upsert_some _ _ _ _ Ll) in LU. injection LU as Ex.
        apply (f_equal size) in Ex. simpl in Ex.
        rewrite <- Ex. apply final_size_idem.
      - rewrite (look_upsert_none _ _ _ Ll) in LU.
        now apply inserted_size. }
    pose proof (look_upsert_some newOrders _ _ _ L1) as L2.
    rewrite Hfs, set_size_same in L2.
    now apply look_In in L2.
  - (* every level of the second pass has a counterpart in the first *)
    intros y Hy. apply filterEmptyOrders_In in Hy. destruct Hy as [HyU Hpos].
    destruct (isNaN (price y)) eqn:Hnan.
    { exists y. split; [|now right].
      apply filterEmptyOrders_In. apply HT1.
      eapply nan_level_origin; eauto. }
    pose proof (In_look _ _ (merge_sorted_unique _ HdU1) HyU Hnan) as LU1.
    destruct (look T1 (price y)) as [t|] eqn:L1.
    + apply look_In in L1. destruct L1 as [Ht Hp].
      exists t. split.
      * apply filterEmptyOrders_In. now apply HT1.
      * left. unfold same_price. now rewrite feqb_sym.
    + rewrite (look_upsert_none _ _ _ L1) in LU1.
      pose proof (inserted_size _ _ _ LU1) as Hsz.
      destruct (look l (price y)) as [o|] eqn:Ll.
      * pose proof (look_upsert_some newOrders _ _ _ Ll) as LU.
        rewrite Hsz in LU. apply look_In in LU. destruct LU as [Hx Hp].
        exists (set_size (size y) o). split.
        -- apply filterEmptyOrders_In. split; assumption.
        -- left. unfold same_price. rewrite feqb_sym. exact Hp.
      * pose proof (look_upsert_none newOrders _ _ Ll) as LU.
        rewrite LU1 in LU. apply look_In in LU. destruct LU as [Hx Hp].
        exists y. split.
        -- apply filterEmptyOrders_In. split; assumption.
        -- left. exact Hp.
Qed.

(** ** Totals do not steer the pipeline *)

Lemma findIndex_map {A B} (f : A -> B) (p : B -> bool) l :
  findIndex p (map f l) = findIndex (fun x => p (f x)) l.
Proof.
  induction l as [|x l IH]; simpl; [reflexivity|]. now rewrite IH.
Qed.

Lemma update_at_map {A} (f g : A -> A) :
  (forall x, g (f x) = f (g x)) ->
  forall l i, update_at i g (map f l) = map f (update_at i g l).
Proof.
  intros H. induction l as [|x l IH]; intros [|i]; simpl; auto.
  - now rewrite H.
  - now rewrite IH.
Qed.

Lemma bsearch_ext s1 s2 : (forall i, s1 i = s2 i) ->
  forall fuel low high, bsearch fuel s1 low high = bsearch fuel s2 low high.
Proof.
  intros H. induction fuel as [|fuel IH]; intros low high; cbn [bsearch];
    [reflexivity|].
  destruct (low <? high)%nat; [|reflexivity].
  rewrite H. destruct (s2 ((low + high) / 2)%nat); apply IH.
Qed.

Lemma sortedIndexBy_map {A} (f : A -> A) (key : A -> float) l v :
  (forall x, key (f x) = key x) ->
  sortedIndexBy (map f l) v key = sortedIndexBy l v key.
Proof.
  intros H. unfold sortedIndexBy. destruct l as [|d l]; [reflexivity|].
  change (map f (d :: l)) with (f d :: map f l).
  cbv zeta. change (f d :: map f l) with (map f (d :: l)).
  rewrite length_map. apply bsearch_ext. intros i.
  now rewrite map_nth, H.
Qed.

Lemma splice_insert_map {A} (f : A -> A) i x l :
  splice_insert i (f x) (map f l) = map f (splice_insert i x l).
Proof.
  unfold splice_insert. now rewrite map_app, firstn_map, skipn_map.
Qed.

Lemma upsert_step_clear l b :
  total b = 0 ->
  upsert_step (clear_totals l) b = clear_totals (upsert_step l b).
Proof.
  intros Hb. unfold upsert_step, clear_totals.
  rewrite findIndex_map. simpl.
  destruct (findIndex (fun x => price x =? price b) l) as [i|].
  - now apply update_at_map.
  - rewrite sortedIndexBy_map by reflexivity.
    rewrite <- splice_insert_map. f_equal.
    destruct b; simpl in *; now subst.
Qed.

Lemma upsert_all_clear newOrders : forall l,
  Forall (fun b => total b = 0) newOrders ->
  upsert_all newOrders (clear_totals l) = clear_totals (upsert_all newOrders l).
Proof.
  unfold upsert_all.
  induction newOrders as [|b B IH]; intros l H; simpl; [reflexivity|].
  inversion H; subst. rewrite upsert_step_clear by assumption. now apply IH.
Qed.

Lemma filterEmptyOrders_clear l :
  filterEmptyOrders (clear_totals l) = clear_totals (filterEmptyOrders l).
Proof.
  unfold filterEmptyOrders, clear_totals.
  induction l as [|x l IH]; simpl; [reflexivity|].
  destruct (0 <? size x); simpl; now rewrite IH.
Qed.

Lemma slice_map {A} (f : A -> A) s e l :
  slice s e (map f l) = map f (slice s e l).
Proof.
  unfold slice. now rewrite length_map, skipn_map, firstn_map.
Qed.

Lemma trim_clear side deep l :
  trim side deep (clear_totals l) = clear_totals (trim side deep l).
Proof. destruct side; apply slice_map. Qed.

Lemma merge_side_clear side deep newOrders l :
  Forall (fun b => total b = 0) newOrders ->
  merge_side side deep newOrders (clear_totals l)
  = clear_totals (merge_side side deep newOrders l).
Proof.
  intros H. unfold merge_side.
  now rewrite upsert_all_clear, filterEmptyOrders_clear, trim_clear.
Qed.

Lemma sum_bid_from_clear : forall l p,
  sum_bid_from p (clear_totals l) = sum_bid_from p l.
Proof.
  induction l as [|x l IH]; intros p; simpl; [reflexivity|]. now rewrite IH.
Qed.

Lemma sum_ask_clear : forall l, sum_ask (clear_totals l) = sum_ask l.
Proof.
  induction l as [|x l IH]; simpl; [reflexivity|]. now rewrite IH.
Qed.

Lemma sumOrders_clear side l : sumOrders side (clear_totals l) = sumOrders side l.
Proof.
  destruct side.
  - rewrite !sumOrders_bid. apply sum_bid_from_clear.
  - rewrite !sumOrders_ask. apply sum_ask_clear.
Qed.

Lemma clear_sumOrders side l : clear_totals (sumOrders side l) = clear_totals l.
Proof.
  unfold clear_totals. destruct side.
  - rewrite sumOrders_bid. generalize (@None float).
    induction l as [|x l IH]; intros p; simpl; [reflexivity|]. now rewrite IH.
  - rewrite sumOrders_ask.
    induction l as [|x l IH]; simpl; [reflexivity|]. now rewrite IH.
Qed.

Lemma mapOrders_totals feed : Forall (fun b => total b = 0) (mapOrders feed).
Proof.
  unfold mapOrders. apply Forall_map. apply Forall_forall. reflexivity.
Qed.

Lemma clear_totals_prices l : map price (clear_totals l) = map price l.
Proof.
  unfold clear_totals. rewrite map_map. reflexivity.
Qed.

(** The pipeline aggregates what [merge_side] leaves. *)
Lemma run_side_merge side deep feed l :
  run_side side deep feed l
  = sumOrders side (merge_side side deep (mapOrders feed) l).
Proof. unfold run_side, merge_side. apply trim_sumOrders. Qed.

Lemma run_side_idempotent side deep feed l :
  (0 <= deep)%Z -> merge_sorted l -> feed_no_nan feed ->
  run_side side deep feed (run_side side deep feed l)
  = run_side side deep feed l.
Proof.
  intros Hdeep Hd Hf.
  pose proof (mapOrders_totals feed) as Hz.
  pose proof (mapOrders_no_nan feed Hf) as HB.
  rewrite !run_side_merge.
  set (g := merge_side side deep (mapOrders feed)).
  rewrite <- (sumOrders_clear side (g (sumOrders side (g l)))).
  unfold g at 1. rewrite <- merge_side_clear by assumption.
  rewrite clear_sumOrders. unfold g at 1.
  rewrite <- merge_side_clear by assumption.
  rewrite merge_side_idempotent; try assumption.
  - rewrite merge_side_clear by assumption. apply sumOrders_clear.
  - eapply (sorted_same_prices _ sorts_before_prices);
      [symmetry; apply clear_totals_prices|assumption].
Qed.

(** ** The book after a batch *)

Lemma processOrders_side feed side b :
  side_orders side (processOrders feed side b)
  = run_side side (levelsDeep b) feed (side_orders side b).
Proof.
  unfold processOrders, run_side, upsert, upsert_all.
  rewrite trimBook_trim. now destruct side.
Qed.

Lemma processOrders_levelsDeep feed side b :
  levelsDeep (processOrders feed side b) = levelsDeep b.
Proof. now destruct side. Qed.

Lemma processOrders_bid_asks feed b : asks (processOrders feed BID b) = asks b.
Proof. reflexivity. Qed.

Lemma processOrders_ask_bids feed b : bids (processOrders feed ASK b) = bids b.
Proof. reflexivity. Qed.

Lemma processFeed_bids bidFeed askFeed b :
  bids (processFeed bidFeed askFeed b)
  = run_side BID (levelsDeep b) bidFeed (bids b).
Proof.
  unfold processFeed. rewrite processOrders_ask_bids.
  apply (processOrders_side bidFeed BID b).
Qed.

Lemma processFeed_asks bidFeed askFeed b :
  asks (processFeed bidFeed askFeed b)
  = run_side ASK (levelsDeep b) askFeed (asks b).
Proof.
  unfold processFeed.
  apply (processOrders_side askFeed ASK (processOrders bidFeed BID b)).
Qed.

Lemma processFeed_levelsDeep bidFeed askFeed b :
  levelsDeep (processFeed bidFeed askFeed b) = levelsDeep b.
Proof. reflexivity. Qed.

Lemma book_eq b1 b2 :
  levelsDeep b1 = levelsDeep b2 -> bids b1 = bids b2 -> asks b1 = asks b2 ->
  b1 = b2.
Proof. destruct b1, b2; simpl; intros; now subst. Qed.

(** * The claims *)

(** C1. Cumulative-total invariant: after every batch, on each side the
    total of a level is the sum of the sizes from the best price of the side
    out to and including that level.  For bids [total[0] = size[0]] and
    [total[i] = total[i-1] + size[i]]; for asks [total[last] = size[last]]
    and [total[i] = total[i+1] + size[i]]. *)
Theorem cumulative_total_invariant bidFeed askFeed b :
  let b' := processFeed bidFeed askFeed b in
  bid_totals (bids b') /\
  ask_totals (asks b') /\
  (forall i o, nth_error (bids b') i = Some o ->
     depth_to BID (bids b') i = Some (total o)) /\
  (forall i o, nth_error (asks b') i = Some o ->
     depth_to ASK (asks b') i = Some (total o)).
Proof.
  cbv zeta. rewrite processFeed_bids, processFeed_asks.
  unfold run_side. rewrite !trim_sumOrders.
  repeat split.
  - apply sumOrders_bid_totals.
  - apply sumOrders_ask_totals.
  - apply sumOrders_depth.
  - apply sumOrders_depth.
Qed.

Lemma cumulative_total_invariant_witness :
  nth_error (asks scenario_A_book) 0 = Some (mkOrder 102 2 6) /\
  depth_to ASK (asks scenario_A_book) 0 = Some (total (mkOrder 102 2 6)).
Proof.
  split; [reflexivity|].
  exact (proj2 (proj2 (proj2
           (cumulative_total_invariant [(100, 5); (99, 3)]
              [(101, 4); (102, 2)] emptyBook)))
         0%nat (mkOrder 102 2 6) eq_refl).
Defined.

(** Two lists of levels that differ in the total of their first level are
    different. *)
Lemma first_total_differs (l1 l2 : list Order) (t : float) :
  option_map (fun o => total o =? t) (hd_error l1)
  <> option_map (fun o => total o =? t) (hd_error l2) ->
  l1 <> l2.
Proof. intros H E. apply H. now rewrite E. Qed.

(** C2, as stated, fails: in Scenario A the asks do not carry the totals
    [2] and [6] of the claim; the total of the level at 102 is 6. *)
Lemma scenario_A_asks_differ :
  asks (processFeed [(100, 5); (99, 3)] [(101, 4); (102, 2)] emptyBook)
  <> [mkOrder 102 2 2; mkOrder 101 4 6].
Proof.
  apply (first_total_differs _ _ 2). vm_compute. discriminate.
Qed.

(** C2, amended.  Scenario A: from an empty book, the batch with bids
    [[100,5],[99,3]] and asks [[101,4],[102,2]] yields
    bids [{100,5,5},{99,3,8}], asks [{102,2,6},{101,4,4}] (the ask totals
    accumulate from the best ask, which is last), bestBid 100, bestAsk 101
    and spread 1, for a [round] that leaves 1 unchanged. *)
Theorem scenario_A_result (round : float -> float) :
  round 1 = 1 ->
  bids scenario_A_book = [mkOrder 100 5 5; mkOrder 99 3 8] /\
  asks scenario_A_book = [mkOrder 102 2 6; mkOrder 101 4 4] /\
  topBid scenario_A_book = 100 /\
  topAsk scenario_A_book = 101 /\
  spread round scenario_A_book = 1.
Proof.
  intros Hr. repeat split; try (vm_compute; reflexivity).
  vm_compute. exact Hr.
Qed.

Lemma scenario_A_result_witness :
  (fun x : float => x) 1 = 1 /\
  spread (fun x => x) scenario_A_book = 1.
Proof.
  split; [reflexivity|].
  exact (proj2 (proj2 (proj2 (proj2 (scenario_A_result (fun x => x) eq_refl))))).
Defined.

(** C3, as stated, fails: with [levelsDeep = 1] and bids
    [[100,5],[99,3],[98,1]] two levels are discarded, and the total of the
    kept level is 5, its own size: the discarded sizes 3 and 1 are not in
    it. *)
Lemma dropped_levels_do_not_contribute :
  ~ dropped_levels_contribute BID (mkBook 1 [] [])
      [(100, 5); (99, 3); (98, 1)].
Proof.
  unfold dropped_levels_contribute. intros H.
  apply (H ltac:(vm_compute; reflexivity) 0%nat (mkOrder 100 5 5)).
  - vm_compute. reflexivity.
  - vm_compute. reflexivity.
Qed.

(** C3, amended.  Aggregating before trimming gives the kept levels the
    same totals as aggregating after trimming: for every side and batch,
    the total of a kept level is the sum of the sizes of the kept levels
    from the best price out to it, whatever was discarded. *)
Theorem kept_totals_ignore_dropped side feed b :
  let kept := side_orders side (processOrders feed side b) in
  kept = sumOrders side
           (trimBook side b
              (filterEmptyOrders (upsert side b (mapOrders feed)))) /\
  (forall i o, nth_error kept i = Some o ->
     depth_to side kept i = Some (total o)).
Proof.
  cbv zeta.
  assert (E : side_orders side (processOrders feed side b)
              = sumOrders side
                  (trimBook side b
                     (filterEmptyOrders (upsert side b (mapOrders feed))))).
  { rewrite processOrders_side. unfold run_side.
    rewrite trim_sumOrders, trimBook_trim. reflexivity. }
  split; [exact E|]. rewrite E. apply sumOrders_depth.
Qed.

Lemma kept_totals_ignore_dropped_witness :
  let b := mkBook 1 [] [] in
  let feed := [(100, 5); (99, 3); (98, 1)] in
  nth_error (side_orders BID (processOrders feed BID b)) 0
  = Some (mkOrder 100 5 5) /\
  depth_to BID (side_orders BID (processOrders feed BID b)) 0
  = Some (total (mkOrder 100 5 5)).
Proof.
  cbv zeta. split; [reflexivity|].
  exact (proj2 (kept_totals_ignore_dropped BID
                  [(100, 5); (99, 3); (98, 1)] (mkBook 1 [] []))
         0%nat (mkOrder 100 5 5) eq_refl).
Defined.

Lemma descending_last l x :
  descending l -> last_opt l = Some x ->
  forall o, In o l -> o = x \/ above o x.
Proof.
  unfold last_opt. induction 1 as [|a l Hs IH Ha]; intros Hx o Ho.
  - destruct Ho.
  - destruct l as [|a' l'].
    + simpl in Hx. injection Hx as <-. destruct Ho as [<-|[]]. now left.
    + assert (Hx' : nth_error (a' :: l') (length (a' :: l') - 1) = Some x).
      { simpl in Hx |- *. now rewrite Nat.sub_0_r in *. }
      destruct Ho as [<-|Ho].
      * right. rewrite Forall_forall in Ha. apply Ha.
        eapply nth_error_In; eauto.
      * now apply IH.
Qed.

Lemma finite_no_nan l : finite_prices l -> no_nan_prices l.
Proof.
  unfold finite_prices, no_nan_prices. apply Forall_impl. intros o H.
  unfold is_finite in H. apply negb_true_iff, orb_false_iff in H.
  exact (proj1 H).
Qed.

(** C4, as stated, fails: a batch may carry a NaN price.  On the book
    with the single bid [{100,5,5}] (strictly descending, finite) the bid
    batch [[NaN,1]] leaves [{100,..},{NaN,..}], which is not strictly
    descending. *)
Lemma nan_batch_breaks_sortedness :
  let b := mkBook 25 [mkOrder 100 5 5] [] in
  (descending (bids b) /\ finite_prices (bids b)) /\
  (descending (asks b) /\ finite_prices (asks b)) /\
  ~ descending (bids (processFeed [(nan, 1)] [] b)).
Proof.
  cbv zeta. split; [|split].
  - split; repeat constructor.
  - split; constructor.
  - intros H. vm_compute in H. apply descending_inv in H.
    destruct H as [_ H]. inversion H as [|? ? H1 _]; subst.
    vm_compute in H1. discriminate.
Qed.

(** C4, amended.  Sortedness and uniqueness: when both sides of the book
    are strictly descending by price with no NaN price (finite prices in
    particular) and no price of the batch is NaN, then after [processFeed]
    both sides are strictly descending by price, no side holds two levels
    of equal price, and the best (lowest) ask is at the tail. *)
Theorem sortedness_preserved bidFeed askFeed b :
  descending (bids b) -> no_nan_prices (bids b) ->
  descending (asks b) -> no_nan_prices (asks b) ->
  feed_no_nan bidFeed -> feed_no_nan askFeed ->
  let b' := processFeed bidFeed askFeed b in
  descending (bids b') /\ descending (asks b') /\
  unique_prices (bids b') /\ unique_prices (asks b') /\
  (forall best, last_opt (asks b') = Some best ->
     forall o, In o (asks b') -> o = best \/ above o best).
Proof.
  intros Hb Hbn Ha Han Hfb Hfa. cbv zeta.
  rewrite processFeed_bids, processFeed_asks.
  pose proof (run_side_descending BID (levelsDeep b) bidFeed _ Hb Hbn Hfb)
    as Hb'.
  pose proof (run_side_descending ASK (levelsDeep b) askFeed _ Ha Han Hfa)
    as Ha'.
  repeat split; try assumption.
  - now apply descending_unique.
  - now apply descending_unique.
  - intros best Hbest o Ho. eapply descending_last; eauto.
Qed.

Lemma sortedness_preserved_witness :
  let b := scenario_A_book in
  let bidFeed := [(99.5, 3); (100, 0); (98, 1)] in
  let askFeed := [(102, 7); (100.5, 2)] in
  (descending (bids b) /\ no_nan_prices (bids b) /\
   descending (asks b) /\ no_nan_prices (asks b) /\
   feed_no_nan bidFeed /\ feed_no_nan askFeed) /\
  descending (bids (processFeed bidFeed askFeed b)) /\
  descending (asks (processFeed bidFeed askFeed b)).
Proof.
  cbv zeta.
  assert (H : descending (bids scenario_A_book) /\
              no_nan_prices (bids scenario_A_book) /\
              descending (asks scenario_A_book) /\
              no_nan_prices (asks scenario_A_book) /\
              feed_no_nan [(99.5, 3); (100, 0); (98, 1)] /\
              feed_no_nan [(102, 7); (100.5, 2)]).
  { vm_compute. repeat split; repeat constructor. }
  split; [exact H|].
  destruct H as (H1 & H2 & H3 & H4 & H5 & H6).
  pose proof (sortedness_preserved _ _ scenario_A_book H1 H2 H3 H4 H5 H6)
    as H.
  cbv zeta in H. split; apply H.
Defined.

(** C5. Depth bound: for a positive [levelsDeep], after every batch both
    sides hold at most [levelsDeep] levels; [trimBook] keeps the first
    [levelsDeep] entries of the bids and the last [levelsDeep] entries of
    the asks. *)
Theorem depth_bound bidFeed askFeed b :
  (0 < levelsDeep b)%Z ->
  let b' := processFeed bidFeed askFeed b in
  (Z.of_nat (length (bids b')) <= levelsDeep b)%Z /\
  (Z.of_nat (length (asks b')) <= levelsDeep b)%Z /\
  (forall l, trimBook BID b l = firstn (Z.to_nat (levelsDeep b)) l) /\
  (forall l, trimBook ASK b l
             = skipn (length l - Z.to_nat (levelsDeep b)) l).
Proof.
  intros Hpos. cbv zeta. rewrite processFeed_bids, processFeed_asks.
  unfold run_side. repeat split.
  - now apply trim_length.
  - now apply trim_length.
  - intros l. rewrite trimBook_trim. apply trim_bid_nonneg. lia.
  - intros l. rewrite trimBook_trim. now apply trim_ask_pos.
Qed.

Lemma depth_bound_witness :
  (0 < 1)%Z /\
  (Z.of_nat (length (asks (processFeed [] [(101, 4); (102, 2)]%float
                             (mkBook 1 [] [])))) <= 1)%Z.
Proof.
  split; [lia|].
  exact (proj1 (proj2 (depth_bound [] [(101, 4); (102, 2)] (mkBook 1 [] [])
                         ltac:(simpl; lia)))).
Defined.

(** Outside that domain: with [levelsDeep = 0] the asks are not trimmed at
    all, since [slice(-0)] is [slice(0)]. *)
Remark depth_zero_keeps_asks b l : levelsDeep b = 0%Z -> trimBook ASK b l = l.
Proof.
  intros H. rewrite trimBook_trim, H. apply trim_ask_zero.
Qed.

(** ** Size-zero tuples *)

Lemma submit_side side feed b :
  side_orders side (submit side feed b)
  = run_side side (levelsDeep b) feed (side_orders side b).
Proof.
  destruct side.
  - exact (processFeed_bids feed [] b).
  - exact (processFeed_asks [] feed b).
Qed.

Lemma filter_update_dropped s : (0 <? s) = false ->
  forall l i x, nth_error l i = Some x ->
  filterEmptyOrders (update_at i (set_size s) l)
  = filterEmptyOrders (remove_at i l).
Proof.
  intros Hs. unfold filterEmptyOrders, remove_at.
  induction l as [|a l IH]; intros [|i] x H; try discriminate; simpl.
  - now rewrite Hs.
  - simpl in H. now rewrite (IH i x H).
Qed.

Lemma filter_insert_dropped x : (0 <? size x) = false ->
  forall l r,
  filterEmptyOrders (splice_insert r x l) = filterEmptyOrders l.
Proof.
  intros Hs l r. unfold filterEmptyOrders, splice_insert.
  rewrite filter_app. simpl. rewrite Hs. rewrite <- filter_app.
  now rewrite firstn_skipn.
Qed.

Lemma filter_positive l : positive_sizes l -> filterEmptyOrders l = l.
Proof.
  unfold filterEmptyOrders.
  induction 1 as [|a l Ha Hl IH]; simpl; [reflexivity|].
  now rewrite Ha, IH.
Qed.

Lemma unique_remove_at l : unique_prices l ->
  forall i x, nth_error l i = Some x ->
  Forall (fun o => (price o =? price x) = false) (remove_at i l).
Proof.
  unfold remove_at.
  induction 1 as [|a l Ha Hl IH]; intros [|i] x H; try discriminate; simpl.
  - injection H as <-. eapply Forall_impl; [|exact Ha].
    intros o Ho. now rewrite feqb_sym.
  - simpl in H. constructor.
    + rewrite Forall_forall in Ha. apply Ha. eapply nth_error_In; eauto.
    + now apply IH.
Qed.

Lemma Forall_price_sumOrders (Q : float -> Prop) side l :
  Forall (fun o => Q (price o)) l ->
  Forall (fun o => Q (price o)) (sumOrders side l).
Proof.
  intros H.
  apply (proj1 (Forall_map price Q (sumOrders side l))).
  rewrite sumOrders_prices. now apply Forall_map.
Qed.

Lemma Forall_trim (P : Order -> Prop) side deep l :
  Forall P l -> Forall P (trim side deep l).
Proof.
  rewrite !Forall_forall. intros H x Hx. apply H. eapply In_trim; eauto.
Qed.

Lemma Forall_filterEmptyOrders (P : Order -> Prop) l :
  Forall P l -> Forall P (filterEmptyOrders l).
Proof.
  rewrite !Forall_forall. intros H x Hx. apply H.
  now apply filterEmptyOrders_In in Hx.
Qed.

(** A side within the invariants of the data model is left as it is by an
    empty batch. *)
Lemma run_side_fixed side deep l :
  positive_sizes l -> side_totals side l ->
  (Z.of_nat (length l) <= deep)%Z ->
  run_side side deep [] l = l.
Proof.
  intros Hp Ht Hlen. unfold run_side. simpl.
  rewrite (filter_positive _ Hp).
  assert (E : sumOrders side l = l).
  { destruct side; [now apply sumOrders_fixed_bid|now apply sumOrders_fixed_ask]. }
  rewrite E. now apply trim_all.
Qed.

(** C6, as stated, fails: the effect on a book state outside the depth
    bound is not a no-op.  With [levelsDeep = 1] and the bids
    [{100,5,5},{99,3,8}], the tuple [[98,0]] names no price of the side and
    still the committed bids change, to [{100,5,5}]. *)
Lemma size_zero_absent_not_noop :
  let b := mkBook 1 [mkOrder 100 5 5; mkOrder 99 3 8] [] in
  findIndex (fun o => price o =? 98) (bids b) = None /\
  bids (processFeed [(98, 0)] [] b) <> bids b.
Proof.
  cbv zeta. split; [vm_compute; reflexivity|].
  intros H. apply (f_equal (@length _)) in H. vm_compute in H. discriminate.
Qed.

(** C6, amended.  Deletion: a size-0 tuple for a price that exists on the
    side removes that level -- the committed side is the pruned,
    aggregated and trimmed side without it, and holds no level of that
    price when the prices of the side were unique.  A size-0 tuple for a
    price that is not on the side acts as an empty batch; it leaves the
    committed levels unchanged when the side has positive sizes, carries
    its cumulative totals and holds at most [levelsDeep] levels. *)
Theorem deletion_semantics side p b :
  let l := side_orders side b in
  let l' := side_orders side (submit side [(p, 0)] b) in
  (forall i, findIndex (fun o => price o =? p) l = Some i ->
     l' = trimBook side b
            (sumOrders side (filterEmptyOrders (remove_at i l))) /\
     (unique_prices l -> Forall (fun o => (price o =? p) = false) l')) /\
  (findIndex (fun o => price o =? p) l = None ->
     l' = side_orders side (submit side [] b) /\
     (positive_sizes l -> side_totals side l ->
      (Z.of_nat (length l) <= levelsDeep b)%Z -> l' = l)).
Proof.
  cbv zeta. rewrite !submit_side. split.
  - intros i Hi.
    destruct (findIndex_some _ _ _ Hi) as (x & Hx & Hpx & _).
    assert (E : run_side side (levelsDeep b) [(p, 0)] (side_orders side b)
                = trimBook side b
                    (sumOrders side
                       (filterEmptyOrders (remove_at i (side_orders side b))))).
    { unfold run_side, upsert_all. simpl. unfold upsert_step. simpl.
      rewrite Hi. rewrite (filter_update_dropped 0 eq_refl _ _ _ Hx).
      now rewrite trimBook_trim. }
    split; [exact E|]. intros Hu. rewrite E, trimBook_trim.
    apply Forall_trim.
    apply (Forall_price_sumOrders (fun q => (q =? p) = false)).
    apply Forall_filterEmptyOrders.
    eapply Forall_impl; [|exact (unique_remove_at _ Hu _ _ Hx)].
    intros o Ho. simpl in Ho. now rewrite <- (feqb_eqb_r _ _ (price o) Hpx).
  - intros Hn.
    assert (E : run_side side (levelsDeep b) [(p, 0)] (side_orders side b)
                = run_side side (levelsDeep b) [] (side_orders side b)).
    { unfold run_side, upsert_all. simpl. unfold upsert_step. simpl.
      rewrite Hn.
      now rewrite (filter_insert_dropped (mkOrder p 0 0) eq_refl). }
    split; [exact E|]. intros Hp Ht Hlen. rewrite E.
    now apply run_side_fixed.
Qed.

Lemma deletion_semantics_witness :
  let b := scenario_A_book in
  (findIndex (fun o => price o =? 100) (bids b) = Some 0%nat /\
   unique_prices (bids b) /\
   bids (submit BID [(100, 0)] b) = [mkOrder 99 3 3]) /\
  (findIndex (fun o => price o =? 98) (bids b) = None /\
   positive_sizes (bids b) /\ bid_totals (bids b) /\
   (Z.of_nat (length (bids b)) <= levelsDeep b)%Z /\
   bids (submit BID [(98, 0)] b) = bids b).
Proof.
  cbv zeta.
  destruct (deletion_semantics BID 100 scenario_A_book) as [Hdel _].
  destruct (deletion_semantics BID 98 scenario_A_book) as [_ Hnop].
  cbv zeta in Hdel, Hnop.
  assert (Hf : findIndex (fun o => price o =? 100) (bids scenario_A_book)
               = Some 0%nat) by (vm_compute; reflexivity).
  assert (Hn : findIndex (fun o => price o =? 98) (bids scenario_A_book)
               = None) by (vm_compute; reflexivity).
  assert (Hu : unique_prices (bids scenario_A_book)).
  { vm_compute. repeat constructor. }
  assert (Hp : positive_sizes (bids scenario_A_book)).
  { vm_compute. repeat constructor. }
  assert (Ht : bid_totals (bids scenario_A_book)).
  { intros [|[|[|i]]] o; vm_compute; intros H; try discriminate;
      injection H as <-; reflexivity. }
  assert (Hl : (Z.of_nat (length (bids scenario_A_book))
                <= levelsDeep scenario_A_book)%Z).
  { vm_compute. discriminate. }
  split.
  - split; [exact Hf|]. split; [exact Hu|].
    etransitivity; [exact (proj1 (Hdel 0%nat Hf))|].
    vm_compute. reflexivity.
  - split; [exact Hn|]. split; [exact Hp|]. split; [exact Ht|].
    split; [exact Hl|].
    exact (proj2 (Hnop Hn) Hp Ht Hl).
Defined.

(** C7, as stated, fails: a batch may carry a NaN price, which [findIndex]
    never finds again.  On the empty book the bid batch [[NaN,1]] leaves one
    level the first time and two levels the second time. *)
Lemma nan_batch_not_idempotent :
  (descending (bids emptyBook) /\ unique_prices (bids emptyBook) /\
   positive_sizes (bids emptyBook)) /\
  (descending (asks emptyBook) /\ unique_prices (asks emptyBook) /\
   positive_sizes (asks emptyBook)) /\
  processFeed [(nan, 1)] [] (processFeed [(nan, 1)] [] emptyBook)
  <> processFeed [(nan, 1)] [] emptyBook.
Proof.
  split; [|split].
  - repeat split; constructor.
  - repeat split; constructor.
  - intros H. apply (f_equal (fun b => length (bids b))) in H.
    vm_compute in H. discriminate.
Qed.

(** C7, amended.  Idempotence: for a book whose sides are strictly
    descending by price (unique prices and positive sizes are not needed),
    a batch with no NaN price and a non-negative [levelsDeep], applying
    the batch twice in succession yields the same book as applying it
    once. *)
Theorem idempotence bidFeed askFeed b :
  (0 <= levelsDeep b)%Z ->
  descending (bids b) -> descending (asks b) ->
  feed_no_nan bidFeed -> feed_no_nan askFeed ->
  processFeed bidFeed askFeed (processFeed bidFeed askFeed b)
  = processFeed bidFeed askFeed b.
Proof.
  intros Hdeep Hb Ha Hfb Hfa. apply book_eq.
  - reflexivity.
  - rewrite !processFeed_bids, processFeed_levelsDeep.
    apply run_side_idempotent; auto using descending_merge_sorted.
  - rewrite !processFeed_asks, processFeed_levelsDeep.
    apply run_side_idempotent; auto using descending_merge_sorted.
Qed.

Lemma idempotence_witness :
  let b := mkBook 2 [mkOrder 100 5 5; mkOrder 99 3 8] [mkOrder 101 4 4] in
  let bidFeed := [(100, 0); (98, 1); (97, 2); (98, 6)] in
  let askFeed := [(103, 1); (101, 0); (102, 2)] in
  ((0 <= levelsDeep b)%Z /\
   descending (bids b) /\ descending (asks b) /\
   feed_no_nan bidFeed /\ feed_no_nan askFeed) /\
  processFeed bidFeed askFeed (processFeed bidFeed askFeed b)
  = processFeed bidFeed askFeed b.
Proof.
  cbv zeta.
  assert (H : (0 <= 2)%Z /\
              descending [mkOrder 100 5 5; mkOrder 99 3 8] /\
              descending [mkOrder 101 4 4] /\
              feed_no_nan [(100, 0); (98, 1); (97, 2); (98, 6)] /\
              feed_no_nan [(103, 1); (101, 0); (102, 2)]).
  { split; [lia|]. repeat split; repeat constructor. }
  split; [exact H|].
  destruct H as (H0 & H1 & H2 & H3 & H4).
  exact (idempotence _ _ (mkBook 2 _ _) H0 H1 H2 H3 H4).
Defined.

(** ** Metrics on an empty side *)

Lemma zero_div_cases x : 0 / x = 0 \/ 0 / x = - 0 \/ 0 / x = nan.
Proof.
  pose proof (div_spec 0 x) as H.
  change (Prim2SF 0) with (S754_zero false) in H.
  destruct (Prim2SF x) as [s|s| |s m e]; simpl in H.
  - right; right. apply Prim2SF_inj. rewrite H. reflexivity.
  - destruct s; [right; left|left]; apply Prim2SF_inj; rewrite H; reflexivity.
  - right; right. apply Prim2SF_inj. rewrite H. reflexivity.
  - destruct s; [right; left|left]; apply Prim2SF_inj; rewrite H; reflexivity.
Qed.

Lemma zero_ratio_falsy x : truthy ((0 / x) * 100) = false.
Proof.
  destruct (zero_div_cases x) as [E|[E|E]]; rewrite E; reflexivity.
Qed.

Lemma hasSpread_empty b : bids b = [] \/ asks b = [] -> hasSpread b = false.
Proof.
  unfold hasSpread. intros [E|E]; rewrite E; simpl;
    [reflexivity|apply andb_false_r].
Qed.

(** X9.  The guarded class: on an empty side [spread] and [spreadPercent] are
    the sentinel 0, for any [round] that keeps falsy numbers falsy. *)
Lemma guarded_empty_side round b :
  round_keeps_falsy round ->
  bids b = [] \/ asks b = [] ->
  spread round b = 0 /\ spreadPercent round b = 0.
Proof.
  intros Hr He.
  assert (Hs : spread round b = 0).
  { unfold spread. now rewrite hasSpread_empty. }
  split; [exact Hs|].
  unfold spreadPercent. rewrite Hs. simpl.
  now rewrite (Hr _ (zero_ratio_falsy (midPoint b))).
Qed.

Lemma nan_sub_left x : nan - x = nan.
Proof.
  apply Prim2SF_inj. rewrite sub_spec.
  change (Prim2SF nan) with S754_nan. reflexivity.
Qed.

Lemma nan_sub_right x : x - nan = nan.
Proof.
  apply Prim2SF_inj. rewrite sub_spec.
  change (Prim2SF nan) with S754_nan. now destruct (Prim2SF x).
Qed.

(** The unguarded class on an empty side: [spread] is NaN. *)
Lemma unguarded_empty_side b :
  bids b = [] \/ asks b = [] -> Unguarded.spread b = nan.
Proof.
  unfold Unguarded.spread, Unguarded.lowestAsk, Unguarded.highestBid.
  intros [E|E]; rewrite E; simpl.
  - apply nan_sub_right.
  - apply nan_sub_left.
Qed.

(** C8 fails on the unguarded class.  Its book built from the bids
    [[100,5],[99,3]] and no asks has an empty ask side; [spread()] is NaN
    there, not 0, and [spreadPercent()] is [round] of NaN. *)
Theorem unguarded_empty_asks_nan :
  let b := Unguarded.newOrderBook [(100, 5); (99, 3)] [] in
  asks b = [] /\
  Unguarded.spread b = nan /\
  Unguarded.spread b <> 0 /\
  forall round, Unguarded.spreadPercent round b = round nan.
Proof.
  cbv zeta. split; [reflexivity|]. split; [reflexivity|]. split.
  - intros H. apply (f_equal isNaN) in H. vm_compute in H. discriminate.
  - intros round. reflexivity.
Qed.

(** C9. [midPoint()] is [bestAsk + bestBid / 2], the division binding
    tighter than the sum: with both sides non-empty, [bestBid] and [bestAsk]
    are the prices of the first bid and of the last ask (as [topBid] and
    [topAsk] return them, a falsy price read as 0), and the unguarded class
    computes the same formula on the raw prices.  On the book of Scenario A
    the value is 151, where the average of 101 and 100 is 100.5. *)
Theorem midPoint_literal :
  (forall b bid bs ask ask_front,
     bids b = bid :: bs -> asks b = ask_front ++ [ask] ->
     midPoint b = topAsk b + topBid b / 2 /\
     topBid b = or_zero (Some (price bid)) /\
     topAsk b = or_zero (Some (price ask)) /\
     (truthy (price bid) = true -> truthy (price ask) = true ->
      midPoint b = price ask + price bid / 2) /\
     Unguarded.midPoint b = price ask + price bid / 2) /\
  (midPoint scenario_A_book = 151 /\
   Unguarded.midPoint scenario_A_book = 151 /\
   (topAsk scenario_A_book + topBid scenario_A_book) / 2 = 100.5).
Proof.
  split; [|repeat split].
  intros b bid bs ask ask_front Hb Ha.
  assert (Eb : topBid b = or_zero (Some (price bid))).
  { unfold topBid. now rewrite Hb. }
  assert (Ea : topAsk b = or_zero (Some (price ask))).
  { unfold topAsk. rewrite Ha, last_opt_snoc. reflexivity. }
  repeat split; try assumption.
  - intros Tb Ta. unfold midPoint. rewrite Eb, Ea. simpl.
    now rewrite Tb, Ta.
  - unfold Unguarded.midPoint, Unguarded.lowestAsk, Unguarded.highestBid.
    rewrite Hb, Ha. simpl nth_error. rewrite slice_suffix.
    rewrite length_app. simpl length.
    replace (Z.to_nat (rel_index (Z.of_nat (length ask_front + 1)) (-1)))
      with (length ask_front)
      by (unfold rel_index; simpl; lia).
    rewrite skipn_app, Nat.sub_diag, skipn_all. reflexivity.
Qed.

Lemma midPoint_literal_witness :
  (truthy (price (mkOrder 100 5 5)) = true /\
   truthy (price (mkOrder 101 4 4)) = true) /\
  midPoint scenario_A_book
  = price (mkOrder 101 4 4) + price (mkOrder 100 5 5) / 2.
Proof.
  split; [split; reflexivity|].
  exact (proj1 (proj2 (proj2 (proj2
           (proj1 midPoint_literal scenario_A_book
              (mkOrder 100 5 5) [mkOrder 99 3 8]
              (mkOrder 101 4 4) [mkOrder 102 2 6] eq_refl eq_refl))))
         eq_refl eq_refl).
Defined.

(** C10, as stated, fails: a side that holds more than [levelsDeep] levels
    is trimmed by any batch.  With [levelsDeep = 1] and the asks
    [{102,2,6},{101,4,4}] (descending, unique, positive, totals in place),
    a bid-only batch leaves the asks [{101,4,4}]. *)
Lemma deep_side_not_isolated :
  let b := mkBook 1 [] [mkOrder 102 2 6; mkOrder 101 4 4] in
  (descending (asks b) /\ unique_prices (asks b) /\
   positive_sizes (asks b) /\ ask_totals (asks b)) /\
  (descending (bids b) /\ unique_prices (bids b) /\
   positive_sizes (bids b) /\ bid_totals (bids b)) /\
  asks (processFeed [(100, 5)] [] b) <> asks b.
Proof.
  cbv zeta. split; [|split].
  - repeat split; try (repeat constructor; fail).
    intros [|[|[|i]]] o; vm_compute; intros H; try discriminate;
      injection H as <-; reflexivity.
  - repeat split; try (repeat constructor; fail).
    intros [|i] o; vm_compute; intros H; discriminate.
  - intros H. apply (f_equal (@length _)) in H. vm_compute in H.
    discriminate.
Qed.

(** C10, amended.  Side isolation: when the asks have positive sizes,
    carry their cumulative totals and number at most [levelsDeep], a
    bid-only batch leaves the asks unchanged, prices, sizes and totals; and
    symmetrically an ask-only batch leaves such bids unchanged. *)
Theorem side_isolation b :
  (positive_sizes (asks b) -> ask_totals (asks b) ->
   (Z.of_nat (length (asks b)) <= levelsDeep b)%Z ->
   forall bidFeed, asks (processFeed bidFeed [] b) = asks b) /\
  (positive_sizes (bids b) -> bid_totals (bids b) ->
   (Z.of_nat (length (bids b)) <= levelsDeep b)%Z ->
   forall askFeed, bids (processFeed [] askFeed b) = bids b).
Proof.
  split; intros Hp Ht Hlen feed.
  - rewrite processFeed_asks. now apply (run_side_fixed ASK).
  - rewrite processFeed_bids. now apply (run_side_fixed BID).
Qed.

Lemma side_isolation_witness :
  let b := scenario_A_book in
  (positive_sizes (asks b) /\ ask_totals (asks b) /\
   (Z.of_nat (length (asks b)) <= levelsDeep b)%Z /\
   asks (processFeed [(100, 0); (98, 7)] [] b) = asks b) /\
  (positive_sizes (bids b) /\ bid_totals (bids b) /\
   (Z.of_nat (length (bids b)) <= levelsDeep b)%Z /\
   bids (processFeed [] [(101, 0); (105, 7)] b) = bids b).
Proof.
  cbv zeta.
  assert (Hpa : positive_sizes (asks scenario_A_book)).
  { vm_compute. repeat constructor. }
  assert (Hpb : positive_sizes (bids scenario_A_book)).
  { vm_compute. repeat constructor. }
  assert (Hta : ask_totals (asks scenario_A_book)).
  { intros [|[|[|i]]] o; vm_compute; intros H; try discriminate;
      injection H as <-; reflexivity. }
  assert (Htb : bid_totals (bids scenario_A_book)).
  { intros [|[|[|i]]] o; vm_compute; intros H; try discriminate;
      injection H as <-; reflexivity. }
  assert (Hla : (Z.of_nat (length (asks scenario_A_book))
                 <= levelsDeep scenario_A_book)%Z).
  { vm_compute. discriminate. }
  assert (Hlb : (Z.of_nat (length (bids scenario_A_book))
                 <= levelsDeep scenario_A_book)%Z).
  { vm_compute. discriminate. }
  split.
  - split; [exact Hpa|]. split; [exact Hta|]. split; [exact Hla|].
    exact (proj1 (side_isolation scenario_A_book) Hpa Hta Hla _).
  - split; [exact Hpb|]. split; [exact Htb|]. split; [exact Hlb|].
    exact (proj2 (side_isolation scenario_A_book) Hpb Htb Hlb _).
Defined.

(** * Further properties of the code *)

(** ** [upsert]: what a batch does to one price *)

Lemma final_size_app B1 B2 p d :
  final_size (B1 ++ B2) p d = final_size B2 p (final_size B1 p d).
Proof. unfold final_size. apply fold_left_app. Qed.

Lemma final_size_unmatched B p d :
  Forall (fun b => (price b =? p) = false) B -> final_size B p d = d.
Proof.
  unfold final_size. intros H. revert d.
  induction H as [|b B Hb HB IH]; intros d; simpl; [reflexivity|].
  now rewrite Hb.
Qed.

Lemma inserted_matched B p :
  Exists (fun b => (price b =? p) = true) B -> inserted B p <> None.
Proof.
  induction 1 as [b B Hb|b B HB IH]; simpl.
  - rewrite Hb. discriminate.
  - destruct (price b =? p); [discriminate|assumption].
Qed.

(** X1.  Last write wins: when the last tuple of a batch for a price (by [===])
    carries size [s], the level of that price after [upsert] has size [s];
    a level the side already held keeps its price field and its total. *)
Theorem upsert_last_write_wins side b feed1 t feed2 p :
  (fst t =? p) = true ->
  Forall (fun u => (fst u =? p) = false) feed2 ->
  exists o,
    look (upsert side b (mapOrders (feed1 ++ t :: feed2))) p = Some o /\
    size o = snd t /\
    (forall o0, look (side_orders side b) p = Some o0 ->
       price o = price o0 /\ total o = total o0).
Proof.
  intros Ht H2.
  change (upsert side b (mapOrders (feed1 ++ t :: feed2)))
    with (upsert_all (mapOrders (feed1 ++ t :: feed2)) (side_orders side b)).
  set (B := mapOrders (feed1 ++ t :: feed2)).
  assert (Hfs : forall d, final_size B p d = snd t).
  { intros d. unfold B, mapOrders. rewrite map_app. simpl map.
    rewrite final_size_app.
    change (final_size (mapOrder t :: map mapOrder feed2) p
              (final_size (map mapOrder feed1) p d))
      with (final_size (map mapOrder feed2) p
              (if price (mapOrder t) =? p then size (mapOrder t)
               else final_size (map mapOrder feed1) p d)).
    simpl price. rewrite Ht. simpl size.
    apply final_size_unmatched. apply Forall_map.
    eapply Forall_impl; [|exact H2]. auto. }
  destruct (look (side_orders side b) p) as [o0|] eqn:L.
  - exists (set_size (snd t) o0). split; [|split].
    + rewrite (look_upsert_some B _ _ _ L). now rewrite Hfs.
    + reflexivity.
    + intros o1 E. injection E as <-. split; reflexivity.
  - rewrite (look_upsert_none B _ _ L).
    destruct (inserted B p) as [y|] eqn:I.
    + exists y. split; [reflexivity|]. split; [|discriminate].
      rewrite <- (inserted_size _ _ _ I 0). apply Hfs.
    + exfalso. revert I. apply inserted_matched.
      unfold B, mapOrders. rewrite map_app. apply Exists_app. right.
      now left.
Qed.

Lemma upsert_last_write_wins_witness :
  exists o,
    look (upsert BID scenario_A_book
            (mapOrders ([(99, 7)] ++ (99, 2) :: [(98, 1)]))) 99 = Some o /\
    size o = 2 /\ price o = 99 /\ total o = 8.
Proof.
  destruct (upsert_last_write_wins BID scenario_A_book [(99, 7)] (99, 2)
              [(98, 1)] 99 eq_refl ltac:(repeat constructor))
    as (o & Ho & Hs & Hk).
  exists o. split; [exact Ho|]. split; [exact Hs|].
  exact (Hk (mkOrder 99 3 8) eq_refl).
Defined.

(** ** [upsert]: how many levels *)

Lemma splice_insert_length {A} (x : A) l r :
  length (splice_insert r x l) = S (length l).
Proof.
  unfold splice_insert. rewrite length_app. simpl.
  rewrite <- (firstn_skipn r l) at 3. rewrite length_app. lia.
Qed.

Lemma upsert_step_length l order :
  length (upsert_step l order)
  = match findIndex (fun o => price o =? price order) l with
    | Some _ => length l
    | None => S (length l)
    end.
Proof.
  unfold upsert_step.
  destruct (findIndex (fun o => price o =? price order) l).
  - apply update_at_length.
  - apply splice_insert_length.
Qed.

Lemma findIndex_nan l order :
  isNaN (price order) = true ->
  findIndex (fun o => price o =? price order) l = None.
Proof.
  intros Hn. induction l as [|a l IH]; simpl; [reflexivity|].
  destruct (price a =? price order) eqn:E.
  - apply feqb_no_nan in E. destruct E. congruence.
  - now rewrite IH.
Qed.

(** X2.  [upsert] never removes a level and adds at most one per tuple; a tuple
    whose price is NaN is never matched, so it always adds one. *)
Theorem upsert_length side b newOrders :
  let n := length (side_orders side b) in
  let n' := length (upsert side b newOrders) in
  (n <= n' <= n + length newOrders)%nat /\
  (Forall (fun o => isNaN (price o) = true) newOrders ->
   n' = (n + length newOrders)%nat).
Proof.
  cbv zeta. unfold upsert. generalize (side_orders side b).
  induction newOrders as [|o B IH]; intros l; simpl.
  - split; [lia|]. intros _. lia.
  - destruct (IH (upsert_step l o)) as [Hb Hn].
    pose proof (upsert_step_length l o) as Hs.
    split.
    + destruct (findIndex (fun x => price x =? price o) l); lia.
    + intros H. inversion H as [|? ? Ho HB]; subst.
      rewrite (findIndex_nan l o Ho) in Hs. rewrite (Hn HB). lia.
Qed.

Lemma upsert_length_witness :
  Forall (fun o => isNaN (price o) = true) (mapOrders [(nan, 1); (nan, 2)]) /\
  length (upsert BID scenario_A_book (mapOrders [(nan, 1); (nan, 2)]))
  = (length (side_orders BID scenario_A_book) + 2)%nat.
Proof.
  assert (H : Forall (fun o => isNaN (price o) = true)
                (mapOrders [(nan, 1); (nan, 2)])) by (repeat constructor).
  split; [exact H|].
  exact (proj2 (upsert_length BID scenario_A_book _) H).
Defined.

(** ** Unique prices, whatever the batch *)

Lemma unique_app l1 l2 :
  unique_prices (l1 ++ l2) <->
  unique_prices l1 /\ unique_prices l2 /\
  (forall a c, In a l1 -> In c l2 -> (price a =? price c) = false).
Proof.
  unfold unique_prices. induction l1 as [|x l1 IH]; simpl.
  - split.
    + intros H. repeat split; [constructor|assumption|intros ? ? []].
    + tauto.
  - split.
    + intros H. inversion H as [|? ? Hx Hr]; subst.
      apply Forall_app in Hx. destruct Hx as [Hx1 Hx2].
      apply IH in Hr. destruct Hr as (H1 & H2 & H12).
      repeat split; [constructor; assumption|assumption|].
      intros a c [<-|Ha] Hc; [|now apply H12].
      rewrite Forall_forall in Hx2. now apply Hx2.
    + intros (H1 & H2 & H12). inversion H1 as [|? ? Hx Hr]; subst.
      constructor.
      * apply Forall_app. split; [assumption|].
        apply Forall_forall. intros c Hc. apply H12; [now left|assumption].
      * apply IH. repeat split; try assumption.
        intros a c Ha Hc. apply H12; [now right|assumption].
Qed.

Lemma unique_same_prices : forall l1 l2,
  map price l1 = map price l2 -> unique_prices l1 -> unique_prices l2.
Proof.
  unfold unique_prices.
  induction l1 as [|a l1 IH]; intros [|c l2] E H; try discriminate.
  - constructor.
  - simpl in E. injection E as Eac E. inversion H as [|? ? Ha Hr]; subst.
    constructor; [|eapply IH; eauto].
    clear IH Hr H. revert l2 E.
    induction Ha as [|y l1 Hy Hl IH]; intros [|z l2] E; try discriminate;
      constructor.
    + simpl in E. injection E as Eyz E. congruence.
    + simpl in E. injection E as Eyz E. now apply IH.
Qed.

Lemma unique_sub_filter f l : unique_prices l -> unique_prices (filter f l).
Proof.
  unfold unique_prices.
  induction 1 as [|a l Ha Hl IH]; simpl; [constructor|].
  destruct (f a); [|assumption]. constructor; [|assumption].
  apply Forall_forall. intros y Hy. apply filter_In in Hy.
  rewrite Forall_forall in Ha. now apply Ha.
Qed.

Lemma unique_trim side deep l : unique_prices l -> unique_prices (trim side deep l).
Proof.
  intros H. destruct side; unfold trim.
  - rewrite slice_prefix.
    set (n := Z.to_nat (rel_index (Z.of_nat (length l)) deep)).
    rewrite <- (firstn_skipn n l) in H. apply unique_app in H. apply H.
  - rewrite slice_suffix.
    set (n := Z.to_nat (rel_index (Z.of_nat (length l)) (- deep))).
    rewrite <- (firstn_skipn n l) in H. apply unique_app in H. apply H.
Qed.

Lemma upsert_step_unique l order :
  unique_prices l -> unique_prices (upsert_step l order).
Proof.
  intros H. unfold upsert_step.
  destruct (findIndex (fun o => price o =? price order) l) as [i|] eqn:E.
  - eapply unique_same_prices; [|exact H]. symmetry.
    now apply update_at_prices.
  - apply findIndex_none in E. rewrite Forall_forall in E.
    unfold splice_insert.
    set (r := sortedIndexBy l order (fun o => - price o)).
    rewrite <- (firstn_skipn r l) in H. apply unique_app in H.
    destruct H as (H1 & H2 & H12).
    apply unique_app. split; [assumption|]. split.
    + constructor; [|assumption].
      apply Forall_forall. intros c Hc. rewrite feqb_sym.
      apply E. eapply In_skipn_list; eauto.
    + intros a c Ha [<-|Hc].
      * apply E. eapply In_firstn_list; eauto.
      * now apply H12.
Qed.

Lemma run_side_unique side deep feed l :
  unique_prices l -> unique_prices (run_side side deep feed l).
Proof.
  intros H. unfold run_side. apply unique_trim.
  eapply unique_same_prices; [symmetry; apply sumOrders_prices|].
  apply unique_sub_filter. unfold upsert_all.
  revert l H. induction (mapOrders feed) as [|o B IH]; intros l H; simpl;
    [assumption|].
  apply IH. now apply upsert_step_unique.
Qed.

(** X3.  Uniqueness needs no hypothesis on the batch: [findIndex] scans the
    whole side, so a book with unique prices (by [===]) keeps unique prices
    after every batch, also a batch with NaN prices or a side that is not
    sorted. *)
Theorem unique_prices_preserved bidFeed askFeed b :
  unique_prices (bids b) -> unique_prices (asks b) ->
  unique_prices (bids (processFeed bidFeed askFeed b)) /\
  unique_prices (asks (processFeed bidFeed askFeed b)).
Proof.
  intros Hb Ha. rewrite processFeed_bids, processFeed_asks.
  split; now apply run_side_unique.
Qed.

Lemma unique_prices_preserved_witness :
  let b := mkBook 25 [mkOrder 99 3 3; mkOrder 100 5 8] [] in
  (unique_prices (bids b) /\ unique_prices (asks b)) /\
  unique_prices (bids (processFeed [(nan, 1); (99, 4); (nan, 2)] [] b)).
Proof.
  cbv zeta.
  assert (H : unique_prices [mkOrder 99 3 3; mkOrder 100 5 8] /\
              unique_prices []) by (split; repeat constructor).
  split; [exact H|].
  exact (proj1 (unique_prices_preserved [(nan, 1); (99, 4); (nan, 2)] []
                  (mkBook 25 _ _) (proj1 H) (proj2 H))).
Defined.

(** ** What every committed side looks like *)

Lemma positive_same_sizes : forall l1 l2,
  map size l1 = map size l2 -> positive_sizes l1 -> positive_sizes l2.
Proof.
  unfold positive_sizes.
  induction l1 as [|a l1 IH]; intros [|c l2] E H; try discriminate;
    constructor.
  - simpl in E. injection E as Eac E. inversion H; subst. congruence.
  - simpl in E. injection E as Eac E. inversion H; subst. eapply IH; eauto.
Qed.

Lemma run_side_positive side deep feed l :
  positive_sizes (run_side side deep feed l).
Proof.
  unfold run_side, positive_sizes. apply Forall_trim.
  apply (positive_same_sizes (filterEmptyOrders
                                (upsert_all (mapOrders feed) l))).
  - symmetry. apply sumOrders_sizes.
  - apply Forall_forall. intros x Hx. now apply filterEmptyOrders_In in Hx.
Qed.

(** X4.  After every batch every committed level has a size above 0 (so no
    size is 0, negative or NaN), whatever the book held before. *)
Theorem committed_sizes_positive bidFeed askFeed b :
  positive_sizes (bids (processFeed bidFeed askFeed b)) /\
  positive_sizes (asks (processFeed bidFeed askFeed b)).
Proof.
  rewrite processFeed_bids, processFeed_asks.
  split; apply run_side_positive.
Qed.

Lemma trim_idempotent side deep l :
  (0 <= deep)%Z -> trim side deep (trim side deep l) = trim side deep l.
Proof.
  intros H. destruct side.
  - rewrite !trim_bid_nonneg by assumption.
    rewrite firstn_firstn. f_equal. lia.
  - destruct (Z.eq_dec deep 0) as [->|Hn]; [now rewrite !trim_ask_zero|].
    rewrite !trim_ask_pos by lia. rewrite length_skipn.
    replace (length l - (length l - Z.to_nat deep) - Z.to_nat deep)%nat
      with 0%nat by lia.
    reflexivity.
Qed.

Lemma sumOrders_idempotent side l :
  sumOrders side (sumOrders side l) = sumOrders side l.
Proof.
  destruct side.
  - apply sumOrders_fixed_bid, sumOrders_bid_totals.
  - apply sumOrders_fixed_ask, sumOrders_ask_totals.
Qed.

Lemma run_side_stable side deep feed l :
  (0 <= deep)%Z ->
  run_side side deep [] (run_side side deep feed l)
  = run_side side deep feed l.
Proof.
  intros H.
  pose proof (run_side_positive side deep feed l) as Hp.
  unfold run_side at 1. simpl. rewrite (filter_positive _ Hp).
  unfold run_side. rewrite !trim_sumOrders, sumOrders_idempotent.
  now rewrite trim_idempotent.
Qed.

(** X5.  A committed book is stable: for [levelsDeep >= 0], an empty batch
    applied after any batch changes nothing, whatever the first batch and
    the book before it were (sorted or not, NaN prices or not). *)
Theorem committed_book_stable bidFeed askFeed b :
  (0 <= levelsDeep b)%Z ->
  processFeed [] [] (processFeed bidFeed askFeed b)
  = processFeed bidFeed askFeed b.
Proof.
  intros H. apply book_eq.
  - reflexivity.
  - rewrite (processFeed_bids [] []), processFeed_levelsDeep,
      processFeed_bids.
    now apply run_side_stable.
  - rewrite (processFeed_asks [] []), processFeed_levelsDeep,
      processFeed_asks.
    now apply run_side_stable.
Qed.

Lemma committed_book_stable_witness :
  let b := mkBook 1 [mkOrder 5 1 0; mkOrder 7 0 0; mkOrder 6 2 9] [] in
  let bidFeed := [(nan, 1); (8, 3)] in
  (0 <= levelsDeep b)%Z /\
  processFeed [] [] (processFeed bidFeed [(nan, 2)] b)
  = processFeed bidFeed [(nan, 2)] b.
Proof.
  cbv zeta.
  assert (H : (0 <= levelsDeep
                      (mkBook 1 [mkOrder 5 1 0; mkOrder 7 0 0; mkOrder 6 2 9]
                         []))%Z) by (simpl; lia).
  split; [exact H|].
  exact (committed_book_stable [(nan, 1); (8, 3)] [(nan, 2)] _ H).
Defined.

(** ** Sizes that delete *)

(** X6.  A tuple whose size is not above 0 -- zero, negative or NaN -- has the
    effect of the size-0 tuple for the same price: every such tuple is a
    deletion (or does nothing when the price is absent). *)
Theorem nonpositive_size_deletes side p s b :
  (0 <? s) = false ->
  side_orders side (submit side [(p, s)] b)
  = side_orders side (submit side [(p, 0)] b).
Proof.
  intros Hs. rewrite !submit_side.
  unfold run_side, upsert_all. simpl. unfold upsert_step. simpl.
  destruct (findIndex (fun o => price o =? p) (side_orders side b))
    as [i|] eqn:E.
  - destruct (findIndex_some _ _ _ E) as (x & Hx & _).
    rewrite (filter_update_dropped s Hs _ _ _ Hx).
    now rewrite (filter_update_dropped 0 eq_refl _ _ _ Hx).
  - rewrite (filter_insert_dropped (mkOrder p s 0) Hs).
    now rewrite (filter_insert_dropped (mkOrder p 0 0) eq_refl).
Qed.

Lemma nonpositive_size_deletes_witness :
  (0 <? nan) = false /\
  bids (submit BID [(100, nan)] scenario_A_book)
  = bids (submit BID [(100, 0)] scenario_A_book).
Proof.
  split; [reflexivity|].
  exact (nonpositive_size_deletes BID 100 nan scenario_A_book eq_refl).
Defined.

(** ** The two sides *)

(** X7.  The two passes of [processFeed] commute: each reads and writes the
    array of its own side only, so running the asks before the bids gives
    the same book. *)
Theorem sides_commute bidFeed askFeed b :
  processOrders bidFeed BID (processOrders askFeed ASK b)
  = processFeed bidFeed askFeed b.
Proof.
  apply book_eq.
  - reflexivity.
  - rewrite processFeed_bids.
    exact (processOrders_side bidFeed BID (processOrders askFeed ASK b)).
  - rewrite processFeed_asks, processOrders_bid_asks.
    exact (processOrders_side askFeed ASK b).
Qed.

(** ** Metrics of the guarded class *)

Lemma fleb_cmp a b :
  (a <=? b) = true <->
  SFcompare (Prim2SF a) (Prim2SF b) = Some Lt \/
  SFcompare (Prim2SF a) (Prim2SF b) = Some Eq.
Proof.
  rewrite leb_spec. unfold SFleb.
  destruct (SFcompare (Prim2SF a) (Prim2SF b)) as [[ | | ]|];
    split; try tauto; try discriminate; intros [H|H]; discriminate.
Qed.

Lemma fleb_refl a : isNaN a = false -> (a <=? a) = true.
Proof.
  intros H. apply fleb_cmp. right. apply SFcompare_self. now apply isNaN_cmp.
Qed.

Lemma fltb_leb a b : (a <? b) = true -> (a <=? b) = true.
Proof. rewrite fltb_cmp, fleb_cmp. now left. Qed.

Lemma fleb_total a b :
  isNaN a = false -> isNaN b = false -> (a <? b) = false -> (b <=? a) = true.
Proof.
  intros Ha Hb Hlt. apply fleb_cmp.
  rewrite (SFcompare_swap (Prim2SF a) (Prim2SF b)).
  apply isNaN_cmp in Ha. apply isNaN_cmp in Hb.
  destruct (SFcompare (Prim2SF a) (Prim2SF b)) as [[ | | ]|] eqn:E; simpl.
  - now right.
  - apply fltb_cmp in E. congruence.
  - now left.
  - destruct (SFcompare_undefined _ _ E); contradiction.
Qed.

Lemma or_zero_not_nan v : isNaN (or_zero v) = false.
Proof.
  destruct v as [x|]; simpl; [|reflexivity].
  destruct (truthy x) eqn:T; [|reflexivity].
  unfold truthy in T. apply negb_true_iff, orb_false_iff in T. apply T.
Qed.

(** X8.  What [|| 0] guards is never NaN, for every book and every [round]:
    [topAsk], [topBid], [spreadPercent] and [maxTotal]; and [maxTotal] is
    one of its two operands and at least as large as both. *)
Theorem guarded_metrics_not_nan round b :
  isNaN (topAsk b) = false /\
  isNaN (topBid b) = false /\
  isNaN (spreadPercent round b) = false /\
  isNaN (maxTotal b) = false /\
  let x := or_zero (option_map total (hd_error (asks b))) in
  let y := or_zero (option_map total (last_opt (bids b))) in
  (maxTotal b = x \/ maxTotal b = y) /\
  (x <=? maxTotal b) = true /\ (y <=? maxTotal b) = true.
Proof.
  split; [apply or_zero_not_nan|]. split; [apply or_zero_not_nan|].
  split; [apply or_zero_not_nan|]. cbv zeta. unfold maxTotal.
  set (x := or_zero (option_map total (hd_error (asks b)))).
  set (y := or_zero (option_map total (last_opt (bids b)))).
  assert (Hx : isNaN x = false) by apply or_zero_not_nan.
  assert (Hy : isNaN y = false) by apply or_zero_not_nan.
  destruct (x <? y) eqn:E.
  - repeat split; auto using fltb_leb, fleb_refl.
  - repeat split; auto using fleb_total, fleb_refl.
Qed.

Lemma guarded_empty_side_witness :
  let round := fun x : float => x in
  let b := processFeed [(100, 5)] [] emptyBook in
  (round_keeps_falsy round /\ (bids b = [] \/ asks b = [])) /\
  spread round b = 0 /\ spreadPercent round b = 0.
Proof.
  cbv zeta.
  assert (Hr : round_keeps_falsy (fun x : float => x)) by (intros x H; exact H).
  assert (He : bids (processFeed [(100, 5)] [] emptyBook) = [] \/
               asks (processFeed [(100, 5)] [] emptyBook) = [])
    by (right; reflexivity).
  split; [split; assumption|].
  exact (guarded_empty_side _ _ Hr He).
Defined.

(** ** The two classes side by side *)

Lemma unguarded_lowestAsk b :
  Unguarded.lowestAsk b = option_map price (last_opt (asks b)).
Proof.
  unfold Unguarded.lowestAsk. f_equal. rewrite slice_suffix.
  destruct (asks b) as [|a l] using rev_ind; [reflexivity|].
  rewrite last_opt_snoc, length_app. simpl length.
  replace (Z.to_nat (rel_index (Z.of_nat (length l + 1)) (-1)))
    with (length l)
    by (unfold rel_index; simpl; lia).
  now rewrite skipn_app, Nat.sub_diag, skipn_all.
Qed.

(** X10.  On a book with both sides non-empty and truthy top prices, the guarded
    class reads the same two prices as the unguarded one: the mid-points are
    equal, the guarded spread is [round] of the unguarded spread, and the
    guarded [spreadPercent] divides the rounded spread, where the unguarded
    one divides the raw spread. *)
Theorem guarded_refines_unguarded round b bid bs ask ask_front :
  bids b = bid :: bs -> asks b = ask_front ++ [ask] ->
  truthy (price bid) = true -> truthy (price ask) = true ->
  midPoint b = Unguarded.midPoint b /\
  spread round b = round (Unguarded.spread b) /\
  spreadPercent round b
  = or_zero (Some (round ((round (Unguarded.spread b)
                           / Unguarded.midPoint b) * 100))).
Proof.
  intros Hb Ha Tb Ta.
  assert (Eb : topBid b = to_number (Unguarded.highestBid b)).
  { unfold topBid, Unguarded.highestBid. rewrite Hb. simpl. now rewrite Tb. }
  assert (Ea : topAsk b = to_number (Unguarded.lowestAsk b)).
  { unfold topAsk. rewrite unguarded_lowestAsk, Ha, last_opt_snoc. simpl.
    now rewrite Ta. }
  assert (Em : midPoint b = Unguarded.midPoint b).
  { unfold midPoint, Unguarded.midPoint. now rewrite Eb, Ea. }
  assert (Es : spread round b = round (Unguarded.spread b)).
  { assert (Hs : hasSpread b = true).
    { unfold hasSpread. rewrite Hb, Ha, length_app. simpl length.
      replace (0 <? length ask_front + 1)%nat with true
        by (symmetry; apply Nat.ltb_lt; lia).
      reflexivity. }
    unfold spread, Unguarded.spread. now rewrite Hs, Eb, Ea. }
  split; [exact Em|]. split; [exact Es|].
  unfold spreadPercent. now rewrite Es, Em.
Qed.

Lemma guarded_refines_unguarded_witness :
  (truthy (price (mkOrder 100 5 5)) = true /\
   truthy (price (mkOrder 101 4 4)) = true) /\
  midPoint scenario_A_book = Unguarded.midPoint scenario_A_book.
Proof.
  split; [split; reflexivity|].
  exact (proj1 (guarded_refines_unguarded (fun x => x) scenario_A_book
                  (mkOrder 100 5 5) [mkOrder 99 3 8]
                  (mkOrder 101 4 4) [mkOrder 102 2 6]
                  eq_refl eq_refl eq_refl eq_refl)).
Defined.

(** ** What [trimBook] keeps *)

Lemma sorted_app_cross {A} (R : A -> A -> Prop) l1 l2 :
  StronglySorted R (l1 ++ l2) ->
  forall a c, In a l1 -> In c l2 -> R a c.
Proof.
  induction l1 as [|x l1 IH]; simpl; intros H a c Ha Hc; [destruct Ha|].
  apply StronglySorted_inv in H. destruct H as [H Hx].
  destruct Ha as [<-|Ha].
  - rewrite Forall_forall in Hx. apply Hx. apply in_or_app. now right.
  - now apply IH.
Qed.

(** X11.  On a strictly descending side [trimBook] drops the levels farthest
    from the spread: the bids it keeps are a prefix, priced above every
    dropped bid; the asks it keeps are a suffix, priced below every dropped
    ask.  This holds for every value of [levelsDeep]. *)
Theorem trimBook_keeps_nearest side b l :
  descending l ->
  exists dropped,
    l = match side with
        | BID => trimBook BID b l ++ dropped
        | ASK => dropped ++ trimBook ASK b l
        end /\
    forall k d, In k (trimBook side b l) -> In d dropped ->
      match side with
      | BID => above k d
      | ASK => above d k
      end.
Proof.
  intros Hd. destruct side; rewrite !trimBook_trim; unfold trim.
  - rewrite slice_prefix.
    set (n := Z.to_nat (rel_index (Z.of_nat (length l)) (levelsDeep b))).
    exists (skipn n l). split; [now rewrite firstn_skipn|].
    intros k d Hk Hdr. rewrite <- (firstn_skipn n l) in Hd.
    eapply sorted_app_cross; eauto.
  - rewrite slice_suffix.
    set (n := Z.to_nat (rel_index (Z.of_nat (length l)) (- levelsDeep b))).
    exists (firstn n l). split; [now rewrite firstn_skipn|].
    intros k d Hk Hdr. rewrite <- (firstn_skipn n l) in Hd.
    eapply sorted_app_cross; eauto.
Qed.

Lemma trimBook_keeps_nearest_witness :
  let l := [mkOrder 102 2 6; mkOrder 101 4 4] in
  descending l /\
  exists dropped,
    l = dropped ++ trimBook ASK (mkBook 1 [] []) l /\
    forall k d, In k (trimBook ASK (mkBook 1 [] []) l) -> In d dropped ->
      above d k.
Proof.
  cbv zeta.
  assert (H : descending [mkOrder 102 2 6; mkOrder 101 4 4])
    by (repeat constructor).
  split; [exact H|].
  exact (trimBook_keeps_nearest ASK (mkBook 1 [] []) _ H).
Defined.

(** ** Where committed levels come from *)

Lemma upsert_step_origin l order x :
  In x (upsert_step l order) ->
  (exists o, In o l /\ price x = price o /\ total x = total o) \/
  x = order.
Proof.
  unfold upsert_step.
  destruct (findIndex (fun o => price o =? price order) l) as [i|].
  - intros H. apply In_update_at_inv in H. left.
    destruct H as [H|(y & Hy & ->)].
    + exists x. auto.
    + exists y. split; [eapply nth_error_In; eauto|]. split; reflexivity.
  - intros H. apply In_splice_insert in H. destruct H as [->|H].
    + now right.
    + left. exists x. auto.
Qed.

Lemma upsert_all_origin newOrders : forall l x,
  In x (upsert_all newOrders l) ->
  (exists o, In o l /\ price x = price o /\ total x = total o) \/
  (exists o, In o newOrders /\ price x = price o /\ total x = total o).
Proof.
  unfold upsert_all.
  induction newOrders as [|b B IH]; intros l x H; simpl in H.
  - left. exists x. auto.
  - destruct (IH _ _ H) as [(o & Ho & Hp & Ht)|(o & Ho & Hp & Ht)].
    + destruct (upsert_step_origin _ _ _ Ho) as [(o' & Ho' & Hp' & Ht')|Heq].
      * left. exists o'. split; [assumption|]. split; congruence.
      * subst o. right. exists b. split; [now left|]. split; assumption.
    + right. exists o. split; [now right|]. split; assumption.
Qed.

Lemma In_same_prices : forall (l1 l2 : list Order) x,
  map price l1 = map price l2 -> In x l1 ->
  exists y, In y l2 /\ price y = price x.
Proof.
  intros l1 l2 x E H. apply (in_map price) in H. rewrite E in H.
  apply in_map_iff in H. destruct H as (y & Hy & Hin). exists y. auto.
Qed.

Lemma run_side_origin side deep feed l x :
  In x (run_side side deep feed l) ->
  (exists o, In o l /\ price x = price o) \/
  (exists t, In t feed /\ price x = fst t).
Proof.
  unfold run_side. intros H. apply In_trim in H.
  destruct (In_same_prices _ _ _ (sumOrders_prices side _) H)
    as (y & Hy & Hp).
  apply filterEmptyOrders_In in Hy. destruct Hy as [Hy _].
  destruct (upsert_all_origin _ _ _ Hy) as [(o & Ho & Hpo & _)|(o & Ho & Hpo & _)].
  - left. exists o. split; [assumption|congruence].
  - right. unfold mapOrders in Ho. apply in_map_iff in Ho.
    destruct Ho as (t & <- & Ht). exists t. split; [assumption|].
    simpl in Hpo. congruence.
Qed.

(** X12.  [processFeed] invents no price: the price of every committed level is
    the price field of a level the side held before or the price of a tuple
    of the side's feed. *)
Theorem committed_prices_known bidFeed askFeed b :
  let b' := processFeed bidFeed askFeed b in
  (forall x, In x (bids b') ->
     (exists o, In o (bids b) /\ price x = price o) \/
     (exists t, In t bidFeed /\ price x = fst t)) /\
  (forall x, In x (asks b') ->
     (exists o, In o (asks b) /\ price x = price o) \/
     (exists t, In t askFeed /\ price x = fst t)).
Proof.
  cbv zeta. rewrite processFeed_bids, processFeed_asks.
  split; intros x; apply run_side_origin.
Qed.

Lemma committed_prices_known_witness :
  In (mkOrder 99 3 8) (bids scenario_A_book) /\
  ((exists o, In o (bids emptyBook) /\ price (mkOrder 99 3 8) = price o) \/
   (exists t, In t [(100, 5); (99, 3)] /\ price (mkOrder 99 3 8) = fst t)).
Proof.
  assert (H : In (mkOrder 99 3 8) (bids scenario_A_book))
    by (right; left; reflexivity).
  split; [exact H|].
  exact (proj1 (committed_prices_known [(100, 5); (99, 3)]
                  [(101, 4); (102, 2)] emptyBook) _ H).
Defined.

(** ** Aggregation *)

Lemma clear_totals_eq : forall l1 l2,
  map price l1 = map price l2 -> map size l1 = map size l2 ->
  clear_totals l1 = clear_totals l2.
Proof.
  unfold clear_totals.
  induction l1 as [|a l1 IH]; intros [|c l2] Ep Es; try discriminate;
    [reflexivity|].
  simpl in *. injection Ep as Ep1 Ep. injection Es as Es1 Es.
  rewrite (IH _ Ep Es). unfold set_total. now rewrite Ep1, Es1.
Qed.

(** X13.  Stale totals never leak: the result of [sumOrders] is a function of
    the prices and sizes of its input alone, it keeps those prices and
    sizes, and aggregating twice is aggregating once. *)
Theorem sumOrders_ignores_totals side l1 l2 :
  map price l1 = map price l2 -> map size l1 = map size l2 ->
  sumOrders side l1 = sumOrders side l2 /\
  map price (sumOrders side l1) = map price l1 /\
  map size (sumOrders side l1) = map size l1 /\
  sumOrders side (sumOrders side l1) = sumOrders side l1.
Proof.
  intros Ep Es. split; [|split; [|split]].
  - rewrite <- (sumOrders_clear side l1), <- (sumOrders_clear side l2).
    now rewrite (clear_totals_eq _ _ Ep Es).
  - apply sumOrders_prices.
  - apply sumOrders_sizes.
  - apply sumOrders_idempotent.
Qed.

Lemma sumOrders_ignores_totals_witness :
  let l1 := [mkOrder 102 2 77; mkOrder 101 4 nan] in
  let l2 := [mkOrder 102 2 0; mkOrder 101 4 0] in
  (map price l1 = map price l2 /\ map size l1 = map size l2) /\
  sumOrders ASK l1 = sumOrders ASK l2.
Proof.
  cbv zeta. split; [split; reflexivity|].
  exact (proj1 (sumOrders_ignores_totals ASK
                  [mkOrder 102 2 77; mkOrder 101 4 nan]
                  [mkOrder 102 2 0; mkOrder 101 4 0] eq_refl eq_refl)).
Defined.

Lemma sumOrders_last_bid l :
  option_map total (last_opt (sumOrders BID l))
  = sum_sizes (sumOrders BID l).
Proof.
  destruct (last_opt (sumOrders BID l)) as [o|] eqn:E.
  - unfold last_opt in E.
    pose proof (sumOrders_depth BID l _ _ E) as H. unfold depth_to in H.
    rewrite firstn_all2 in H by lia. rewrite H. reflexivity.
  - unfold last_opt in E. apply nth_error_None in E.
    destruct (sumOrders BID l) as [|a r]; [reflexivity|simpl in E; lia].
Qed.

Lemma sumOrders_head_ask l :
  option_map total (hd_error (sumOrders ASK l))
  = sum_sizes (rev (sumOrders ASK l)).
Proof.
  destruct (sumOrders ASK l) as [|o r] eqn:E; [reflexivity|].
  pose proof (sumOrders_depth ASK l 0%nat o) as H. rewrite E in H.
  unfold depth_to in H. specialize (H eq_refl). simpl skipn in H.
  rewrite H. reflexivity.
Qed.

(** X14.  After a batch the deepest level of a side carries the whole volume of
    the side, so [maxTotal] is the larger of the two sides' volumes (each
    summed from its best price, an empty side counting 0). *)
Theorem maxTotal_is_larger_volume bidFeed askFeed b :
  let b' := processFeed bidFeed askFeed b in
  let askVolume := or_zero (sum_sizes (rev (asks b'))) in
  let bidVolume := or_zero (sum_sizes (bids b')) in
  maxTotal b' = if askVolume <? bidVolume then bidVolume else askVolume.
Proof.
  cbv zeta. unfold maxTotal.
  rewrite processFeed_bids, processFeed_asks. unfold run_side.
  rewrite !trim_sumOrders.
  now rewrite sumOrders_last_bid, sumOrders_head_ask.
Qed.

(** ** The constructor *)

Lemma run_side_totals side deep feed l :
  side_totals side (run_side side deep feed l).
Proof.
  unfold run_side. rewrite trim_sumOrders. destruct side.
  - apply sumOrders_bid_totals.
  - apply sumOrders_ask_totals.
Qed.

Lemma run_side_length side deep feed l :
  (0 < deep)%Z ->
  (Z.of_nat (length (run_side side deep feed l)) <= deep)%Z.
Proof. intros H. unfold run_side. now apply trim_length. Qed.

(** X15.  A book built by the constructor from feeds without NaN prices has all
    the invariants of the data model: both sides strictly descending by
    price, sizes above 0, cumulative totals in place, and at most
    [levelsDeep] levels, 25 in the guarded class and 10 in the unguarded
    one. *)
Theorem constructor_invariants bidFeed askFeed :
  feed_no_nan bidFeed -> feed_no_nan askFeed ->
  let b := newOrderBook bidFeed askFeed in
  let u := Unguarded.newOrderBook bidFeed askFeed in
  (levelsDeep b = 25%Z /\
   descending (bids b) /\ descending (asks b) /\
   positive_sizes (bids b) /\ positive_sizes (asks b) /\
   bid_totals (bids b) /\ ask_totals (asks b) /\
   (length (bids b) <= 25)%nat /\ (length (asks b) <= 25)%nat) /\
  (levelsDeep u = 10%Z /\
   descending (bids u) /\ descending (asks u) /\
   positive_sizes (bids u) /\ positive_sizes (asks u) /\
   bid_totals (bids u) /\ ask_totals (asks u) /\
   (length (bids u) <= 10)%nat /\ (length (asks u) <= 10)%nat).
Proof.
  intros Hb Ha. cbv zeta.
  assert (G : forall e : OrderBook,
             bids e = [] -> asks e = [] -> (0 < levelsDeep e)%Z ->
             let r := processFeed bidFeed askFeed e in
             descending (bids r) /\ descending (asks r) /\
             positive_sizes (bids r) /\ positive_sizes (asks r) /\
             bid_totals (bids r) /\ ask_totals (asks r) /\
             (Z.of_nat (length (bids r)) <= levelsDeep e)%Z /\
             (Z.of_nat (length (asks r)) <= levelsDeep e)%Z).
  { intros e Eb Ea Hd. cbv zeta. rewrite processFeed_bids, processFeed_asks.
    rewrite Eb, Ea.
    repeat split.
    - apply run_side_descending; auto; constructor.
    - apply run_side_descending; auto; constructor.
    - apply run_side_positive.
    - apply run_side_positive.
    - apply (run_side_totals BID).
    - apply (run_side_totals ASK).
    - now apply run_side_length.
    - now apply run_side_length. }
  split.
  - destruct (G emptyBook eq_refl eq_refl ltac:(simpl; lia))
      as (H1 & H2 & H3 & H4 & H5 & H6 & H7 & H8).
    simpl levelsDeep in H7, H8. unfold newOrderBook.
    repeat split; try assumption; lia.
  - destruct (G Unguarded.emptyBook eq_refl eq_refl ltac:(simpl; lia))
      as (H1 & H2 & H3 & H4 & H5 & H6 & H7 & H8).
    simpl levelsDeep in H7, H8.
    change (Unguarded.newOrderBook bidFeed askFeed)
      with (processFeed bidFeed askFeed Unguarded.emptyBook).
    repeat split; try assumption; lia.
Qed.

Lemma constructor_invariants_witness :
  let bidFeed := [(99, 3); (100, 5); (99, 0); (98.5, 2)] in
  let askFeed := [(101, 4); (102, 2)] in
  (feed_no_nan bidFeed /\ feed_no_nan askFeed) /\
  descending (bids (newOrderBook bidFeed askFeed)) /\
  descending (asks (Unguarded.newOrderBook bidFeed askFeed)).
Proof.
  cbv zeta.
  assert (H : feed_no_nan [(99, 3); (100, 5); (99, 0); (98.5, 2)] /\
              feed_no_nan [(101, 4); (102, 2)])
    by (split; repeat constructor).
  split; [exact H|].
  pose proof (constructor_invariants _ _ (proj1 H) (proj2 H)) as C.
  cbv zeta in C. split.
  - exact (proj1 (proj2 (proj1 C))).
  - exact (proj1 (proj2 (proj2 (proj2 C)))).
Defined.
